(** * S3toGS: one-way sync of an S3 prefix into a GS bucket

    A shallow embedding of [S3toGS.go] (package [main]) and the properties of
    its synchronisation loop.

    The program lists the objects under an S3 prefix and, for each of them,
    stats the object of the same key in the GS bucket, compares MD5 and size,
    and either skips the object or copies it through a local file.  The two
    object stores, the local disk and the standard output are the state the
    embedding threads through [main]; the library calls whose outcome the
    program cannot control (network faults, file-system errors, the bytes a
    download delivers) are read from an environment record. *)

From Stdlib Require Import ZArith List Bool Ascii String Lia.
From Stdlib.Strings Require Import Byte.
From stdpp Require Import gmap strings.

Local Open Scope Z_scope.

(** ** Data model *)

(** [s3.Object] as returned in [ListObjectsV2Output.Contents]; only the fields
    the program reads.  [Size] is Go's [int64].  The SDK declares the fields
    as pointers; they are taken as set, as S3 sets them for every listed
    object. *)
Module s3.
Record Object := { Key : string; ETag : string; Size : Z }.
End s3.

(** [storage.ObjectAttrs]; [MD5] is Go's [[]byte], [Size] is [int64]. *)
Module storage.
Record ObjectAttrs := { ContentType : string; MD5 : list byte; Size : Z }.
End storage.

(** The command-line flags the loop reads. *)
Record Flags := { localDir : string; dryRun : bool }.

(** ** Machine integers *)

Definition uint64_modulus : Z := 2 ^ 64.

(** Go's conversion [uint64(x)] of an [int64], and any [uint64] result:
    reduction modulo 2^64. *)
Definition uint64 (x : Z) : Z := x mod uint64_modulus.

Definition int64_min : Z := - 2 ^ 63.
Definition int64_max : Z := 2 ^ 63 - 1.
Definition is_int64 (x : Z) : bool := (int64_min <=? x) && (x <=? int64_max).

(** ** String helpers used by the comparison *)

Definition quote : ascii := "034"%char.

(** [strings.Replace] with a one-character [old], the empty string as [new]
    and [n = -1]: every occurrence of the character is dropped. *)
Fixpoint remove_char (c : ascii) (s : string) : string :=
  match s with
  | EmptyString => EmptyString
  | String a rest =>
      if Ascii.eqb a c then remove_char c rest else String a (remove_char c rest)
  end.

Definition hextable : string := "0123456789abcdef".

Definition hexdigit (n : N) : ascii :=
  match String.get (N.to_nat n) hextable with
  | Some c => c
  | None => "0"%char
  end.

(** [hex.EncodeToString]: two lower-case digits per byte,
    [hextable[v>>4]] then [hextable[v&0x0f]]. *)
Fixpoint EncodeToString (src : list byte) : string :=
  match src with
  | [] => EmptyString
  | v :: rest =>
      String (hexdigit (N.shiftr (Byte.to_N v) 4))
        (String (hexdigit (N.land (Byte.to_N v) 15)) (EncodeToString rest))
  end.

Definition is_upper (c : ascii) : bool :=
  let n := N_of_ascii c in (65 <=? n)%N && (n <=? 90)%N.

Definition fold_ascii (c : ascii) : ascii :=
  if is_upper c then ascii_of_N (N_of_ascii c + 32) else c.

(** [strings.EqualFold] on its byte-wise path: two bytes agree when they are
    equal or are the upper and lower case of one ASCII letter, and the lengths
    must agree.  At both call sites the second argument is the output of
    [EncodeToString], which is pure ASCII. *)
Fixpoint EqualFold (s t : string) : bool :=
  match s, t with
  | EmptyString, EmptyString => true
  | String a s', String b t' =>
      Ascii.eqb (fold_ascii a) (fold_ascii b) && EqualFold s' t'
  | _, _ => false
  end.

(** ** The comparison of [main], lines 123-135 and 179

    [Attrs] returns a pointer and an error.  A field read through a nil
    pointer panics, so the conditions are evaluated in a result type that
    records such a panic, with Go's short-circuit [||] and [&&]. *)

Inductive eval (A : Type) : Type :=
| Val (a : A)
| NilDeref.
Arguments Val {A} a.
Arguments NilDeref {A}.

Definition field {A} (p : option storage.ObjectAttrs) (f : storage.ObjectAttrs -> A)
  : eval A :=
  match p with
  | Some a => Val (f a)
  | None => NilDeref
  end.

Definition emap {A B} (f : A -> B) (x : eval A) : eval B :=
  match x with
  | Val a => Val (f a)
  | NilDeref => NilDeref
  end.

(** [a || b]: [b] is evaluated only when [a] is false. *)
Definition or_else (a b : eval bool) : eval bool :=
  match a with
  | Val true => Val true
  | Val false => b
  | NilDeref => NilDeref
  end.

(** [a && b]: [b] is evaluated only when [a] is true. *)
Definition and_also (a b : eval bool) : eval bool :=
  match a with
  | Val true => b
  | Val false => Val false
  | NilDeref => NilDeref
  end.

Definition if_then_else {A} (c : eval bool) (t e : eval A) : eval A :=
  match c with
  | Val true => t
  | Val false => e
  | NilDeref => NilDeref
  end.

(** The pair [(gsAttrs, gsErr)]; [gsErr = true] stands for [gsErr != nil]. *)
Record AttrsResult := { gsAttrs : option storage.ObjectAttrs; gsErr : bool }.

(** What [ObjectHandle.Attrs] can return: attributes and a nil error, or a nil
    pointer and an error. *)
Definition attrs_ok (a : storage.ObjectAttrs) : AttrsResult :=
  {| gsAttrs := Some a; gsErr := false |}.
Definition attrs_failed : AttrsResult :=
  {| gsAttrs := None; gsErr := true |}.

(** The five arms of the nested conditional, named after what they print. *)
Inductive Branch :=
| AlreadyInGS      (* else arm, line 180 *)
| HashMatches      (* line 133 *)
| SizeMatches      (* line 135 *)
| WouldTransfer    (* dry run, line 138 *)
| DoTransfer.      (* lines 140-177 *)

Definition s3MD5 (key : s3.Object) : string := remove_char quote (s3.ETag key).
Definition s3Size (key : s3.Object) : Z := s3.Size key.

Definition hash_equal (key : s3.Object) (r : AttrsResult) : eval bool :=
  emap (fun md5 => EqualFold (s3MD5 key) (EncodeToString md5))
       (field (gsAttrs r) storage.MD5).

Definition size_equal (key : s3.Object) (r : AttrsResult) : eval bool :=
  emap (fun sz => s3Size key =? sz) (field (gsAttrs r) storage.Size).

Definition branch (dry : bool) (key : s3.Object) (r : AttrsResult) : eval Branch :=
  if_then_else
    (or_else (Val (gsErr r))
       (or_else (emap negb (hash_equal key r))
                (emap negb (size_equal key r))))
    (if_then_else (and_also (Val (negb (gsErr r))) (hash_equal key r))
       (Val HashMatches)
       (if_then_else (and_also (Val (negb (gsErr r))) (size_equal key r))
          (Val SizeMatches)
          (if dry then Val WouldTransfer else Val DoTransfer)))
    (Val AlreadyInGS).

(** The decision each arm stands for.  The else arm is reached only when the
    hashes match (and the sizes too), so it is a hash-match skip. *)
Inductive SyncDecision :=
| Skip_HashMatch
| Skip_SizeMatch
| Transfer
| Transfer_DryRun.

Definition decision (b : Branch) : SyncDecision :=
  match b with
  | AlreadyInGS | HashMatches => Skip_HashMatch
  | SizeMatches => Skip_SizeMatch
  | WouldTransfer => Transfer_DryRun
  | DoTransfer => Transfer
  end.

Definition is_skip (b : Branch) : bool :=
  match b with
  | AlreadyInGS | HashMatches | SizeMatches => true
  | WouldTransfer | DoTransfer => false
  end.

(** ** The world the program acts on *)

(** The GS bucket (key to attributes of the stored object), the local files
    (path to content) and the local directories. *)
Record World := {
  gs : gmap string storage.ObjectAttrs;
  disk : gmap string (list byte);
  dirs : gset string
}.

(** The two places where [main] calls [Attrs]: line 121 and line 173. *)
Inductive Phase := BeforeTransfer | AfterUpload.

(** What the run does to the outside, in order. *)
Inductive Event :=
| EAttrs (ph : Phase) (key : string)
| EPrintln (args : list string)
| ELogPrintf (format : string) (args : list string)
| ELogFatal (msg : string)
| EMkdirAll (dir : string)
| ECreate (path : string)
| EDownload (key path : string)
| EOpen (path : string)
| ECopyN (path : string)
| EWrite (key : string)
| ERemove (path : string).

(** Library functions whose value the properties do not depend on, and the
    outcome of every call that can fail for reasons outside the program. *)
Record Env := {
  filepath_Base : string -> string;
  filepath_Join : string -> string -> string;
  filepath_Dir : string -> string;
  DetectContentType : list byte -> string;
  ByteSize : Z -> string;
  md5sum : list byte -> list byte;
  NewClient_fails : bool;
  ListObjectsV2 : option (list s3.Object);
  (* a stat error although the object may exist *)
  Attrs_fails : Phase -> string -> bool;
  MkdirAll_fails : string -> bool;
  (* the missing parent directories the call makes before it returns *)
  MkdirAll_made : string -> list string;
  Create_fails : string -> bool;
  (* bytes the downloader leaves in the file, and whether it reports an error *)
  Download_result : string -> list byte * bool;
  Open_fails : string -> bool;
  CopyN_fails : string -> bool;
  Write_fails : string -> bool;
  (* when the write fails: the bytes the closed writer has stored under the
     key all the same, if any *)
  Write_leaves : string -> list byte -> option (list byte);
  Remove_fails : string -> bool;
  (* the text of [time.Since(start)] when [main] returns *)
  elapsed : string
}.

(** Program state: the world, the [uint64] accumulator, everything emitted so
    far, and (a history variable, never read by the program) the arm taken for
    each object so far. *)
Record State := {
  world : World;
  amtTransferred : Z;
  output : list Event;
  decided : list (s3.Object * Branch)
}.

Definition mkState (w : World) (amt : Z) (out : list Event)
    (arms : list (s3.Object * Branch)) : State :=
  {| world := w; amtTransferred := amt; output := out; decided := arms |}.

Definition init (w : World) : State :=
  {| world := w; amtTransferred := 0; output := []; decided := [] |}.

(** ** A state monad with process exit *)

Inductive Res (A : Type) : Type :=
| Ret (a : A)          (* the statement completed *)
| Exit (code : Z)      (* [os.Exit]: nothing after it runs, deferred calls included *)
| Panicked.            (* a runtime panic that is not an [Exit] value *)
Arguments Ret {A} a.
Arguments Exit {A} code.
Arguments Panicked {A}.

Definition M (A : Type) : Type := State -> State * Res A.

Definition ret {A} (a : A) : M A := fun st => (st, Ret a).

Definition bind {A B} (c : M A) (k : A -> M B) : M B :=
  fun st =>
    match c st with
    | (st', Ret a) => k a st'
    | (st', Exit code) => (st', Exit code)
    | (st', Panicked) => (st', Panicked)
    end.

Declare Scope prog_scope.
Delimit Scope prog_scope with prog.
Notation "x <- c ;; k" := (bind c (fun x => k))
  (at level 100, c at next level, right associativity) : prog_scope.
Notation "c ;; k" := (bind c (fun _ => k))
  (at level 100, right associativity) : prog_scope.
Local Open Scope prog_scope.

Definition emit (e : Event) : M unit :=
  fun st =>
    ({| world := world st; amtTransferred := amtTransferred st;
        output := output st ++ [e]; decided := decided st |}, Ret tt).

Definition set_world (f : World -> World) : M unit :=
  fun st =>
    ({| world := f (world st); amtTransferred := amtTransferred st;
        output := output st; decided := decided st |}, Ret tt).

Definition get_world : M World := fun st => (st, Ret (world st)).

(** [amtTransferred += uint64(n)] *)
Definition add_amount (n : Z) : M unit :=
  fun st =>
    ({| world := world st;
        amtTransferred := uint64 (amtTransferred st + uint64 n);
        output := output st; decided := decided st |}, Ret tt).

Definition set_amount (n : Z) : M unit :=
  fun st =>
    ({| world := world st; amtTransferred := n;
        output := output st; decided := decided st |}, Ret tt).

Definition get_amount : M Z := fun st => (st, Ret (amtTransferred st)).

Definition record_arm (key : s3.Object) (b : Branch) : M unit :=
  fun st =>
    ({| world := world st; amtTransferred := amtTransferred st;
        output := output st; decided := decided st ++ [(key, b)] |}, Ret tt).

Definition exit {A} (code : Z) : M A := fun st => (st, Exit code).

Definition lift_eval {A} (x : eval A) : M A :=
  fun st =>
    match x with
    | Val a => (st, Ret a)
    | NilDeref => (st, Panicked)
    end.

(** [log.Fatal]: print, then [os.Exit(1)].  Where the source passes an error
    value, the message here names the call that failed. *)
Definition log_Fatal {A} (msg : string) : M A :=
  emit (ELogFatal msg) ;; exit 1.

(** [fmt.Println] with its operands. *)
Definition Println (args : list string) : M unit := emit (EPrintln args).

(** ** The calls into the outside *)

Section Program.
Variable env : Env.
Variable flags : Flags.

(** What a stat of [key] answers in world [w]: an error when the call
    fails or the bucket has no such object, the stored attributes
    otherwise. *)
Definition lookup_attrs (ph : Phase) (w : World) (key : string) : AttrsResult :=
  if Attrs_fails env ph key then attrs_failed
  else match gs w !! key with
       | Some a => attrs_ok a
       | None => attrs_failed
       end.

(** [gsClient.Bucket(gsBucket).Object(key).Attrs(ctx)] *)
Definition Attrs (ph : Phase) (key : string) : M AttrsResult :=
  emit (EAttrs ph key) ;;
  w <- get_world ;;
  ret (lookup_attrs ph w key).

(** [os.MkdirAll(dir, 0777)]; the returned flag is [err != nil].  The call
    makes the missing parents it gets to, and [dir] itself when it
    succeeds. *)
Definition MkdirAll (dir : string) : M bool :=
  emit (EMkdirAll dir) ;;
  set_world (fun w =>
    {| gs := gs w; disk := disk w;
       dirs := (if MkdirAll_fails env dir then ∅ else {[ dir ]})
               ∪ list_to_set (MkdirAll_made env dir) ∪ dirs w |}) ;;
  ret (MkdirAll_fails env dir).

(** [os.Create(path)]: on success the file exists and is empty.  The handle
    and its deferred [Close] are not modelled; files are addressed by path. *)
Definition Create (path : string) : M bool :=
  emit (ECreate path) ;;
  if Create_fails env path then ret true
  else
    set_world (fun w =>
      {| gs := gs w; disk := <[path := []]> (disk w); dirs := dirs w |}) ;;
    ret false.

(** [s3Downloader.Download(file, input)]: returns the byte count and the
    error flag. *)
Definition Download (path key : string) : M (Z * bool) :=
  emit (EDownload key path) ;;
  let data := fst (Download_result env key) in
  let err := snd (Download_result env key) in
  set_world (fun w =>
    {| gs := gs w; disk := <[path := data]> (disk w); dirs := dirs w |}) ;;
  ret (Z.of_nat (length data), err).

(** [os.Remove(path)]; the returned flag is [err != nil].  A failed removal
    leaves the file. *)
Definition Remove (path : string) : M bool :=
  emit (ERemove path) ;;
  if Remove_fails env path then ret true
  else
    set_world (fun w =>
      {| gs := gs w; disk := delete path (disk w); dirs := dirs w |}) ;;
    ret false.

Definition maxSlurp : N := N.shiftl 1 20.

(** [io.CopyN(&buf, content, n)]: the first [n] bytes go to the buffer, the
    reader keeps the rest. *)
Fixpoint CopyN (content : list byte) (n : N) : list byte * list byte :=
  match content with
  | [] => ([], [])
  | b :: rest =>
      if (n =? 0)%N then ([], content)
      else let '(buf, tl) := CopyN rest (N.pred n) in (b :: buf, tl)
  end.

(** The attributes of an object written with content type [ctype] and
    bytes [data]. *)
Definition written_attrs (ctype : string) (data : list byte) : storage.ObjectAttrs :=
  {| storage.ContentType := ctype;
     storage.MD5 := md5sum env data;
     storage.Size := Z.of_nat (length data) |}.

(** [writeToGS(file, w)], where [w] is the writer for object [key].  Every
    error path calls [log.Fatal], so the function returns only with a nil
    error.  [w.Close()] is called also after a failed [io.Copy], so a failed
    write can still leave an object under the key. *)
Definition writeToGS (path key : string) : M unit :=
  emit (EOpen path) ;;
  w <- get_world ;;
  match (if Open_fails env path then None else disk w !! path) with
  | None => log_Fatal "os.Open"
  | Some content =>
      emit (ECopyN path) ;;
      if CopyN_fails env path then log_Fatal "Error reading from stdin"
      else
        let buf := fst (CopyN content maxSlurp) in
        let rest := snd (CopyN content maxSlurp) in
        let ctype := DetectContentType env buf in
        let data := (buf ++ rest)%list in
        emit (EWrite key) ;;
        if Write_fails env key then
          match Write_leaves env key data with
          | Some part =>
              set_world (fun w =>
                {| gs := <[key := written_attrs ctype part]> (gs w);
                   disk := disk w; dirs := dirs w |})
          | None => ret tt
          end ;;
          log_Fatal "Write error"
        else
          set_world (fun w =>
            {| gs := <[key := written_attrs ctype data]> (gs w);
               disk := disk w; dirs := dirs w |})
  end.

(** ** [main] *)

(** Lines 142-171: create the local file, download into it, upload it, remove
    it.  The values [Download] and [os.Remove] return are dropped, as in the
    source. *)
Definition copy_object (key : s3.Object) (localFilepath : string) : M unit :=
  err <- MkdirAll (filepath_Dir env localFilepath) ;;
  (if err : bool then log_Fatal "Failed to create dirs" else ret tt) ;;
  err <- Create localFilepath ;;
  (if err : bool then log_Fatal "Failed to create file" else ret tt) ;;
  Println ["Downloading from S3"; s3.Key key; "to"; localFilepath] ;;
  _ <- Download localFilepath (s3.Key key) ;;
  Println ["Uploading"; localFilepath; "to GS at"; s3.Key key] ;;
  writeToGS localFilepath (s3.Key key) ;;
  Println ["Removing"; localFilepath] ;;
  _ <- Remove localFilepath ;;
  ret tt.

(** Lines 173-177: stat the uploaded object and compare its size. *)
Definition verify_upload (key : s3.Object) : M unit :=
  r <- Attrs AfterUpload (s3.Key key) ;;
  bad <- lift_eval (or_else (Val (gsErr r)) (emap negb (size_equal key r))) ;;
  if bad : bool then log_Fatal "Upload failed" else ret tt.

(** Lines 142-177: the arm that copies the object. *)
Definition transfer (key : s3.Object) (localFilepath : string) : M unit :=
  copy_object key localFilepath ;;
  verify_upload key.

(** [filepath.Join(localDir, filepath.Base(key))] *)
Definition staged_path (key : s3.Object) : string :=
  filepath_Join env (localDir flags) (filepath_Base env (s3.Key key)).

(** Lines 121-181: the body of the loop. *)
Definition sync_object (key : s3.Object) : M unit :=
  r <- Attrs BeforeTransfer (s3.Key key) ;;
  let localFilepath := staged_path key in
  b <- lift_eval (branch (dryRun flags) key r) ;;
  record_arm key b ;;
  match b with
  | AlreadyInGS => Println ["Already in GS, skipping"; s3.Key key]
  | HashMatches => Println ["Hash matches, skipping"; s3.Key key]
  | SizeMatches => Println ["Size matches, skipping"; s3.Key key]
  | WouldTransfer =>
      add_amount (s3Size key) ;;
      Println ["Would download/upload"; s3.Key key]
  | DoTransfer =>
      add_amount (s3Size key) ;;
      transfer key localFilepath
  end.

(** [for _, key := range s3List.Contents] *)
Fixpoint sync_all (contents : list s3.Object) : M unit :=
  match contents with
  | [] => ret tt
  | key :: rest => sync_object key ;; sync_all rest
  end.

(** [timeTrack(start, name)], lines 54-57. *)
Definition timeTrack (name : string) : M unit :=
  emit (ELogPrintf "%s took %s" [name; elapsed env]).

(** [main].  The deferred calls run when [main] returns, the last deferred
    first: the [Close] of every created file and of the client, which change
    nothing here, then [timeTrack], then [handleExit].  None of them runs
    after [log.Fatal]. *)
Definition main : M unit :=
  (if NewClient_fails env then log_Fatal "storage.NewClient" else ret tt) ;;
  contents <- match ListObjectsV2 env with
              | Some l => ret l
              | None => log_Fatal "ListObjectsV2"
              end ;;
  set_amount (uint64 0) ;;
  sync_all contents ;;
  amt <- get_amount ;;
  Println ["Amount transferred"; ByteSize env amt] ;;
  timeTrack "S3toGS".

(** The exit status of the process: [handleExit] ends a completed [main]
    with [os.Exit(0)], [log.Fatal] exits with 1, and the Go runtime ends a
    panicking program with status 2. *)
Definition exit_status (r : Res unit) : Z :=
  match r with
  | Ret _ => 0
  | Exit code => code
  | Panicked => 2
  end.

End Program.

(** The state right after the first stat of an iteration, once the arm [b] is
    known and recorded. *)
Definition after_stat (key : s3.Object) (b : Branch) (st : State) : State :=
  mkState (world st) (amtTransferred st)
          (output st ++ [EAttrs BeforeTransfer (s3.Key key)])
          (decided st ++ [(key, b)]).

(** ** Vocabulary of the properties *)

(** The phases of the copy of one object. *)
Inductive Stage := Staging | Downloading | Uploading | Verifying | Releasing.

Definition Stage_eqb (a b : Stage) : bool :=
  match a, b with
  | Staging, Staging | Downloading, Downloading | Uploading, Uploading
  | Verifying, Verifying | Releasing, Releasing => true
  | _, _ => false
  end.

Definition stage_of (e : Event) : option Stage :=
  match e with
  | EMkdirAll _ | ECreate _ => Some Staging
  | EDownload _ _ => Some Downloading
  | EOpen _ | ECopyN _ | EWrite _ => Some Uploading
  | EAttrs AfterUpload _ => Some Verifying
  | ERemove _ => Some Releasing
  | EAttrs BeforeTransfer _ | EPrintln _ | ELogPrintf _ _ | ELogFatal _ => None
  end.

(** The phases a sequence of events goes through, each maximal run of events
    of one phase counted once. *)
Fixpoint stages (out : list Event) : list Stage :=
  match out with
  | [] => []
  | e :: rest =>
      match stage_of e, stages rest with
      | None, tl => tl
      | Some s, [] => [s]
      | Some s, s' :: tl => if Stage_eqb s s' then s' :: tl else s :: s' :: tl
      end
  end.

(** The order [transfer] is written in. *)
Definition pipeline_order : list Stage :=
  [Staging; Downloading; Uploading; Releasing; Verifying].

(** The causes that end the copy of [key] through [path] early, and the check
    that follows a completed copy. *)
Definition staging_fails (env : Env) (path : string) : bool :=
  MkdirAll_fails env (filepath_Dir env path) || Create_fails env path.

Definition upload_fails (env : Env) (key : s3.Object) (path : string) : bool :=
  Open_fails env path || CopyN_fails env path || Write_fails env (s3.Key key).

Definition verification_passes (env : Env) (key : s3.Object) : bool :=
  negb (Attrs_fails env AfterUpload (s3.Key key))
  && (s3Size key =? Z.of_nat (length (fst (Download_result env (s3.Key key))))).

(** Events that change the bucket or the local disk. *)
Definition mutates (e : Event) : bool :=
  match e with
  | EMkdirAll _ | ECreate _ | EDownload _ _ | EWrite _ | ERemove _ => true
  | EAttrs _ _ | EPrintln _ | ELogPrintf _ _ | ELogFatal _ | EOpen _ | ECopyN _ =>
      false
  end.

(** What one recorded arm adds to the byte count, as an unbounded integer. *)
Definition contribution (kb : s3.Object * Branch) : Z :=
  match decision (snd kb) with
  | Transfer | Transfer_DryRun => s3Size (fst kb)
  | Skip_HashMatch | Skip_SizeMatch => 0
  end.

Definition sum_Z (l : list Z) : Z := fold_right Z.add 0 l.

(** The exact sum of the sizes of the objects that were, or in a dry run would
    have been, transferred. *)
Definition transfer_total (arms : list (s3.Object * Branch)) : Z :=
  sum_Z (map contribution arms).

(** The bucket holds an object for [key] that the comparison accepts. *)
Definition in_sync (key : s3.Object) (w : World) : Prop :=
  exists a, gs w !! s3.Key key = Some a /\
    (EqualFold (s3MD5 key) (EncodeToString (storage.MD5 a)) = true
     \/ s3Size key = storage.Size a).

(** ** Concrete inputs for the examples

    Two listed objects: [dir/a.txt] (10 bytes), already in the bucket with the
    same MD5, and [dir/b.txt] (20 bytes), not there. *)

Definition etag_of (hex : string) : string :=
  String quote (hex +:+ String quote EmptyString).

Definition obj_a : s3.Object :=
  {| s3.Key := "dir/a.txt"; s3.ETag := etag_of "00FF10ab"; s3.Size := 10 |}.
Definition obj_b : s3.Object :=
  {| s3.Key := "dir/b.txt"; s3.ETag := etag_of "0102"; s3.Size := 20 |}.

Definition attrs_a : storage.ObjectAttrs :=
  {| storage.ContentType := "text/plain";
     storage.MD5 := [x00; xff; x10; xab];
     storage.Size := 10 |}.

(** Same key and size as [obj_a], another digest. *)
Definition attrs_a_other_md5 : storage.ObjectAttrs :=
  {| storage.ContentType := "text/plain";
     storage.MD5 := [x00; xff; x10; xac];
     storage.Size := 10 |}.

(** Same key and digest as [obj_a], another size. *)
Definition attrs_a_other_size : storage.ObjectAttrs :=
  {| storage.ContentType := "text/plain";
     storage.MD5 := [x00; xff; x10; xab];
     storage.Size := 11 |}.

Definition world_empty : World := {| gs := ∅; disk := ∅; dirs := ∅ |}.
Definition world_a : World := {| gs := {[ "dir/a.txt" := attrs_a ]}; disk := ∅; dirs := ∅ |}.
Definition world_a_other : World :=
  {| gs := {[ "dir/a.txt" := attrs_a_other_md5 ]}; disk := ∅; dirs := ∅ |}.

Definition world_a_resized : World :=
  {| gs := {[ "dir/a.txt" := attrs_a_other_size ]}; disk := ∅; dirs := ∅ |}.

Definition bytes20 : list byte := repeat x41 20.

(** The part of a key after its last slash; enough of [filepath.Base] for the
    keys of the examples. *)
Fixpoint last_element (s acc : string) : string :=
  match s with
  | EmptyString => acc
  | String c rest =>
      if Ascii.eqb c "/"%char then last_element rest EmptyString
      else last_element rest (acc +:+ String c EmptyString)
  end.

(** An environment in which nothing fails and every download delivers 20
    bytes.  The digest is a stand-in. *)
Definition env_ok : Env := {|
  filepath_Base := fun k => last_element k EmptyString;
  filepath_Join := fun d f => d +:+ "/" +:+ f;
  filepath_Dir := fun p => "/stage";
  DetectContentType := fun _ => "text/plain; charset=utf-8";
  ByteSize := fun _ => "B";
  md5sum := fun d => firstn 2 d;
  NewClient_fails := false;
  ListObjectsV2 := Some [obj_a; obj_b];
  Attrs_fails := fun _ _ => false;
  MkdirAll_fails := fun _ => false;
  MkdirAll_made := fun _ => [];
  Create_fails := fun _ => false;
  Download_result := fun _ => (bytes20, false);
  Open_fails := fun _ => false;
  CopyN_fails := fun _ => false;
  Write_fails := fun _ => false;
  Write_leaves := fun _ _ => None;
  Remove_fails := fun _ => false;
  elapsed := "1s"
|}.

Definition with_download (e : Env) (d : string -> list byte * bool) : Env := {|
  filepath_Base := filepath_Base e;
  filepath_Join := filepath_Join e;
  filepath_Dir := filepath_Dir e;
  DetectContentType := DetectContentType e;
  ByteSize := ByteSize e;
  md5sum := md5sum e;
  NewClient_fails := NewClient_fails e;
  ListObjectsV2 := ListObjectsV2 e;
  Attrs_fails := Attrs_fails e;
  MkdirAll_fails := MkdirAll_fails e;
  MkdirAll_made := MkdirAll_made e;
  Create_fails := Create_fails e;
  Download_result := d;
  Open_fails := Open_fails e;
  CopyN_fails := CopyN_fails e;
  Write_fails := Write_fails e;
  Write_leaves := Write_leaves e;
  Remove_fails := Remove_fails e;
  elapsed := elapsed e
|}.

Definition with_attrs_fails (e : Env) (f : Phase -> string -> bool) : Env := {|
  filepath_Base := filepath_Base e;
  filepath_Join := filepath_Join e;
  filepath_Dir := filepath_Dir e;
  DetectContentType := DetectContentType e;
  ByteSize := ByteSize e;
  md5sum := md5sum e;
  NewClient_fails := NewClient_fails e;
  ListObjectsV2 := ListObjectsV2 e;
  Attrs_fails := f;
  MkdirAll_fails := MkdirAll_fails e;
  MkdirAll_made := MkdirAll_made e;
  Create_fails := Create_fails e;
  Download_result := Download_result e;
  Open_fails := Open_fails e;
  CopyN_fails := CopyN_fails e;
  Write_fails := Write_fails e;
  Write_leaves := Write_leaves e;
  Remove_fails := Remove_fails e;
  elapsed := elapsed e
|}.

Definition with_listing (e : Env) (l : list s3.Object) : Env := {|
  filepath_Base := filepath_Base e;
  filepath_Join := filepath_Join e;
  filepath_Dir := filepath_Dir e;
  DetectContentType := DetectContentType e;
  ByteSize := ByteSize e;
  md5sum := md5sum e;
  NewClient_fails := NewClient_fails e;
  ListObjectsV2 := Some l;
  Attrs_fails := Attrs_fails e;
  MkdirAll_fails := MkdirAll_fails e;
  MkdirAll_made := MkdirAll_made e;
  Create_fails := Create_fails e;
  Download_result := Download_result e;
  Open_fails := Open_fails e;
  CopyN_fails := CopyN_fails e;
  Write_fails := Write_fails e;
  Write_leaves := Write_leaves e;
  Remove_fails := Remove_fails e;
  elapsed := elapsed e
|}.

Definition with_write_failure (e : Env)
    (leaves : string -> list byte -> option (list byte)) : Env := {|
  filepath_Base := filepath_Base e;
  filepath_Join := filepath_Join e;
  filepath_Dir := filepath_Dir e;
  DetectContentType := DetectContentType e;
  ByteSize := ByteSize e;
  md5sum := md5sum e;
  NewClient_fails := NewClient_fails e;
  ListObjectsV2 := ListObjectsV2 e;
  Attrs_fails := Attrs_fails e;
  MkdirAll_fails := MkdirAll_fails e;
  MkdirAll_made := MkdirAll_made e;
  Create_fails := Create_fails e;
  Download_result := Download_result e;
  Open_fails := Open_fails e;
  CopyN_fails := CopyN_fails e;
  Write_fails := fun _ => true;
  Write_leaves := leaves;
  Remove_fails := Remove_fails e;
  elapsed := elapsed e
|}.

(** Every write fails after the writer has stored the first 5 bytes. *)
Definition env_write_fails : Env :=
  with_write_failure env_ok (fun _ data => Some (firstn 5 data)).

(** The download of every object stops after 5 bytes and reports an error. *)
Definition env_download_fails : Env :=
  with_download env_ok (fun _ => (firstn 5 bytes20, true)).

(** The stat after the upload fails. *)
Definition env_verify_fails : Env :=
  with_attrs_fails env_ok
    (fun ph _ => match ph with AfterUpload => true | BeforeTransfer => false end).

(** Three listed objects of the largest [int64] size. *)
Definition obj_huge (k : string) : s3.Object :=
  {| s3.Key := k; s3.ETag := etag_of "00"; s3.Size := int64_max |}.
Definition env_huge : Env :=
  with_listing env_ok [obj_huge "x"; obj_huge "y"; obj_huge "z"].

Definition flags_run : Flags := {| localDir := "/stage"; dryRun := false |}.
Definition flags_dry : Flags := {| localDir := "/stage"; dryRun := true |}.

(** ** Vocabulary of the further properties *)

Definition string_all (p : ascii -> bool) (s : string) : bool :=
  forallb p (list_ascii_of_string s).

(** One of [0-9a-f]. *)
Definition is_lower_hex (c : ascii) : bool :=
  existsb (Ascii.eqb c) (list_ascii_of_string hextable).

(** One of [0-9a-fA-F]. *)
Definition is_hex_char (c : ascii) : bool := is_lower_hex (fold_ascii c).

Definition is_lower (c : ascii) : bool :=
  let n := N_of_ascii c in (97 <=? n)%N && (n <=? 122)%N.

Definition upper_ascii (c : ascii) : ascii :=
  if is_lower c then ascii_of_N (N_of_ascii c - 32) else c.

(** ASCII upper-casing of a string, to state case-insensitivity. *)
Fixpoint ToUpper (s : string) : string :=
  match s with
  | EmptyString => EmptyString
  | String c rest => String (upper_ascii c) (ToUpper rest)
  end.

(** Every byte value, for checks by enumeration. *)
Definition all_ascii : list ascii := map ascii_of_nat (seq 0 256).

(** The bucket holds something else under the key of [obj_b]. *)
Definition world_b_stale : World :=
  {| gs := {[ "dir/b.txt" := attrs_a ]}; disk := ∅; dirs := ∅ |}.

(** The attributes the bucket holds for an object uploaded with content
    [data]: the content type sniffed from its first [maxSlurp] bytes, its
    digest, its length. *)
Definition stored_attrs (env : Env) (data : list byte) : storage.ObjectAttrs :=
  {| storage.ContentType := DetectContentType env (firstn (N.to_nat maxSlurp) data);
     storage.MD5 := md5sum env data;
     storage.Size := Z.of_nat (length data) |}.

(** No step of the copy of [key] through [path] fails. *)
Definition copy_faultless (env : Env) (key : s3.Object) (path : string) : bool :=
  negb (MkdirAll_fails env (filepath_Dir env path))
  && negb (Create_fails env path)
  && negb (Open_fails env path)
  && negb (CopyN_fails env path)
  && negb (Write_fails env (s3.Key key)).

(** The copy is faultless, the stat after it answers, and the download
    delivered as many bytes as the listing announced. *)
Definition transfer_succeeds (env : Env) (key : s3.Object) (path : string) : bool :=
  copy_faultless env key path
  && negb (Attrs_fails env AfterUpload (s3.Key key))
  && (s3Size key =? Z.of_nat (length (fst (Download_result env (s3.Key key))))).

(** A local file under the staging path of [obj_b]. *)
Definition world_staged : World :=
  {| gs := {[ "dir/a.txt" := attrs_a ]};
     disk := {[ "/stage/b.txt" := bytes20 ]};
     dirs := ∅ |}.

(** The staging paths of the objects recorded with the transfer arm. *)
Fixpoint transferred_paths (env : Env) (flags : Flags)
    (arms : list (s3.Object * Branch)) : list string :=
  match arms with
  | [] => []
  | (key, DoTransfer) :: rest =>
      staged_path env flags key :: transferred_paths env flags rest
  | _ :: rest => transferred_paths env flags rest
  end.

Definition is_DoTransfer (b : Branch) : bool :=
  match b with DoTransfer => true | _ => false end.

(** ** The two earlier versions of [main]

    [unnamed/part_001] and [unnamed/part_000] are the program before it
    compared anything: every listed object is copied.  They stage under the
    full key, not its base name, call [ListObjects], and carry the upload
    inline, statement for statement the body of [writeToGS].  Both end with
    an explicit [os.Exit(0)]. *)

Section Earlier.
Variable env : Env.
Variable flags : Flags.

(** [filepath.Join(localDir, key)] *)
Definition full_path (key : s3.Object) : string :=
  filepath_Join env (localDir flags) (s3.Key key).

(** [for _, key := range contents] with an arbitrary body. *)
Fixpoint for_range (body : s3.Object -> M unit) (contents : list s3.Object)
  : M unit :=
  match contents with
  | [] => ret tt
  | key :: rest => body key ;; for_range body rest
  end.

(** The loop body of [unnamed/part_000]. *)
Definition copy_part_000 (key : s3.Object) : M unit :=
  let localFilepath := full_path key in
  err <- MkdirAll env (filepath_Dir env localFilepath) ;;
  (if err : bool then log_Fatal "Failed to create dirs" else ret tt) ;;
  err <- Create env localFilepath ;;
  (if err : bool then log_Fatal "Failed to create file" else ret tt) ;;
  Println ["Downloading"; s3.Key key; "from S3 to"; localFilepath] ;;
  _ <- Download env localFilepath (s3.Key key) ;;
  Println ["Uploading to GS at"; s3.Key key] ;;
  writeToGS env localFilepath (s3.Key key) ;;
  Println ["Removing"; localFilepath] ;;
  _ <- Remove env localFilepath ;;
  ret tt.

(** [main] of [unnamed/part_000]: client, listing, loop. *)
Definition main_part_000 : M unit :=
  (if NewClient_fails env then log_Fatal "storage.NewClient" else ret tt) ;;
  contents <- match ListObjectsV2 env with
              | Some l => ret l
              | None => log_Fatal "ListObjects"
              end ;;
  for_range copy_part_000 contents.

(** The loop body of [unnamed/part_001]: the notice comes first. *)
Definition copy_part_001 (key : s3.Object) : M unit :=
  let localFilepath := full_path key in
  Println ["Downloading"; s3.Key key; "from S3 to"; localFilepath] ;;
  err <- MkdirAll env (filepath_Dir env localFilepath) ;;
  (if err : bool then log_Fatal "Failed to create dirs" else ret tt) ;;
  err <- Create env localFilepath ;;
  (if err : bool then log_Fatal "Failed to create file" else ret tt) ;;
  _ <- Download env localFilepath (s3.Key key) ;;
  Println ["Uploading to GS at"; s3.Key key] ;;
  writeToGS env localFilepath (s3.Key key) ;;
  Println ["Removing"; localFilepath] ;;
  _ <- Remove env localFilepath ;;
  ret tt.

(** [main] of [unnamed/part_001]: listing, client, loop. *)
Definition main_part_001 : M unit :=
  contents <- match ListObjectsV2 env with
              | Some l => ret l
              | None => log_Fatal "ListObjects"
              end ;;
  (if NewClient_fails env then log_Fatal "storage.NewClient" else ret tt) ;;
  for_range copy_part_001 contents.

End Earlier.

(** No step of the copy fails for any of the objects, staged under their full
    key. *)
Definition all_faultless (env : Env) (flags : Flags) (contents : list s3.Object)
  : bool :=
  forallb (fun key => copy_faultless env key (full_path env flags key)) contents.

(** ** The comparison *)

Lemma branch_attrs_failed dry key p :
  branch dry key {| gsAttrs := p; gsErr := true |}
  = Val (if dry then WouldTransfer else DoTransfer).
Proof. unfold branch; simpl. now destruct dry. Qed.

Lemma branch_attrs_ok dry key a :
  branch dry key (attrs_ok a)
  = Val (if EqualFold (s3MD5 key) (EncodeToString (storage.MD5 a))
         then (if s3Size key =? storage.Size a then AlreadyInGS else HashMatches)
         else if s3Size key =? storage.Size a then SizeMatches
         else if dry then WouldTransfer else DoTransfer).
Proof.
  unfold branch, hash_equal, size_equal, attrs_ok; simpl.
  destruct (EqualFold _ _); simpl;
    destruct (s3Size key =? storage.Size a); simpl;
    now destruct dry.
Qed.

(** A stat answers one of the two shapes [Attrs] can return. *)
Lemma lookup_attrs_shape env ph w key :
  lookup_attrs env ph w key = attrs_failed
  \/ exists a, gs w !! key = Some a /\ lookup_attrs env ph w key = attrs_ok a.
Proof.
  unfold lookup_attrs. destruct (Attrs_fails env ph key); [now left|].
  destruct (gs w !! key) as [a|] eqn:E; [right; now exists a | now left].
Qed.

(** For each result a stat can return, the comparison yields an arm. *)
Lemma branch_of_lookup dry key env ph w k :
  exists b, branch dry key (lookup_attrs env ph w k) = Val b.
Proof.
  destruct (lookup_attrs_shape env ph w k) as [-> | (a & _ & ->)].
  - eexists. apply branch_attrs_failed.
  - eexists. apply branch_attrs_ok.
Qed.

(** ** One iteration of the loop *)

Ltac unfold_prog :=
  unfold transfer, copy_object, verify_upload, writeToGS, MkdirAll, Create,
    Download, Remove, Attrs, log_Fatal, Println, bind, emit, set_world,
    get_world, ret, exit, lift_eval, add_amount, record_arm, mkState in *.

Ltac case_steps :=
  repeat match goal with
         | |- context [if ?c then _ else _] => destruct c; cbn
         | |- context [match ?x !! ?k with _ => _ end] => destruct (x !! k); cbn
         | |- context [match Write_leaves ?e ?k ?d with _ => _ end] =>
             destruct (Write_leaves e k d); cbn
         end.

Section Iteration.
Variable env : Env.
Variable flags : Flags.

(** How [sync_object] continues once the arm is known. *)
Lemma sync_object_arm key st b :
  branch (dryRun flags) key (lookup_attrs env BeforeTransfer (world st) (s3.Key key))
    = Val b ->
  sync_object env flags key st
  = match b with
    | AlreadyInGS => Println ["Already in GS, skipping"; s3.Key key]
    | HashMatches => Println ["Hash matches, skipping"; s3.Key key]
    | SizeMatches => Println ["Size matches, skipping"; s3.Key key]
    | WouldTransfer =>
        add_amount (s3Size key) ;; Println ["Would download/upload"; s3.Key key]
    | DoTransfer =>
        add_amount (s3Size key) ;; transfer env key (staged_path env flags key)
    end (after_stat key b st).
Proof.
  intros Hb. unfold sync_object, Attrs, bind, emit, get_world, ret; simpl.
  rewrite Hb; simpl. reflexivity.
Qed.

(** A skipping arm prints one line and changes nothing else. *)
Lemma sync_object_skip key st b :
  branch (dryRun flags) key (lookup_attrs env BeforeTransfer (world st) (s3.Key key))
    = Val b ->
  is_skip b = true ->
  exists msg,
    sync_object env flags key st
    = (mkState (world st) (amtTransferred st)
         (output st ++ [EAttrs BeforeTransfer (s3.Key key);
                        EPrintln [msg; s3.Key key]])
         (decided st ++ [(key, b)]),
       Ret tt).
Proof.
  intros Hb Hs. rewrite (sync_object_arm _ _ _ Hb).
  destruct b; try discriminate; eexists; unfold Println, emit, after_stat, mkState;
    simpl; rewrite <- app_assoc; reflexivity.
Qed.

End Iteration.

(** The copy never touches the byte count or the recorded arms. *)
Lemma copy_object_keeps env key path st st' r :
  copy_object env key path st = (st', r) ->
  amtTransferred st' = amtTransferred st /\ decided st' = decided st.
Proof.
  unfold_prog. cbn. case_steps; intros [= <- <-]; auto.
Qed.

Lemma verify_upload_keeps env key st st' r :
  verify_upload env key st = (st', r) ->
  amtTransferred st' = amtTransferred st /\ decided st' = decided st
  /\ world st' = world st.
Proof.
  unfold_prog. cbn.
  destruct (lookup_attrs_shape env AfterUpload (world st) (s3.Key key))
    as [-> | (a & _ & ->)]; cbn.
  - intros [= <- <-]; auto.
  - unfold size_equal; cbn. destruct (s3Size key =? storage.Size a); cbn;
      intros [= <- <-]; auto.
Qed.

Lemma transfer_keeps env key path st st' r :
  transfer env key path st = (st', r) ->
  amtTransferred st' = amtTransferred st /\ decided st' = decided st.
Proof.
  unfold transfer, bind.
  destruct (copy_object env key path st) as [st1 r1] eqn:E1.
  apply copy_object_keeps in E1 as [Ha Hd].
  destruct r1; [|intros [= <- <-]; auto..].
  destruct (verify_upload env key st1) as [st2 r2] eqn:E2.
  apply verify_upload_keeps in E2 as (Ha2 & Hd2 & _).
  intros [= <- <-]. split; congruence.
Qed.

(** ** Decisions of the loop body *)

(** C1.  When the stat of the destination succeeds and the ETag without its
    quotes equals the hex of the destination MD5 up to case, the arm taken is
    a hash-match skip whatever the two sizes are: the iteration stats, prints
    one line and returns, with the bucket, the disk and the byte count as
    they were. *)
Theorem hash_match_is_skipped env flags key st a :
  lookup_attrs env BeforeTransfer (world st) (s3.Key key) = attrs_ok a ->
  EqualFold (s3MD5 key) (EncodeToString (storage.MD5 a)) = true ->
  exists b msg,
    branch (dryRun flags) key (attrs_ok a) = Val b /\
    decision b = Skip_HashMatch /\
    sync_object env flags key st
    = (mkState (world st) (amtTransferred st)
         (output st ++ [EAttrs BeforeTransfer (s3.Key key);
                        EPrintln [msg; s3.Key key]])
         (decided st ++ [(key, b)]),
       Ret tt).
Proof.
  intros Hst Hh.
  pose proof (branch_attrs_ok (dryRun flags) key a) as Hb. rewrite Hh in Hb.
  set (b := if s3Size key =? storage.Size a then AlreadyInGS else HashMatches) in *.
  assert (Hs : is_skip b = true) by (subst b; now destruct (_ =? _)).
  assert (Hd : decision b = Skip_HashMatch) by (subst b; now destruct (_ =? _)).
  destruct (sync_object_skip env flags key st b) as [msg Hrun]; auto.
  - now rewrite Hst.
  - exists b, msg. auto.
Qed.

Lemma hash_match_is_skipped_witness :
  exists b msg,
    branch (dryRun flags_run) obj_a (attrs_ok attrs_a_other_size) = Val b /\
    decision b = Skip_HashMatch /\
    sync_object env_ok flags_run obj_a (init world_a_resized)
    = (mkState (world (init world_a_resized)) (amtTransferred (init world_a_resized))
         (output (init world_a_resized)
            ++ [EAttrs BeforeTransfer (s3.Key obj_a); EPrintln [msg; s3.Key obj_a]])
         (decided (init world_a_resized) ++ [(obj_a, b)]),
       Ret tt).
Proof.
  apply (hash_match_is_skipped env_ok flags_run obj_a (init world_a_resized)
           attrs_a_other_size); reflexivity.
Defined.

(** C7.  When the stat succeeds, the hashes differ up to case and the sizes
    are equal, the arm taken is the size-match skip: one line is printed and
    nothing is transferred. *)
Theorem size_match_is_skipped env flags key st a :
  lookup_attrs env BeforeTransfer (world st) (s3.Key key) = attrs_ok a ->
  EqualFold (s3MD5 key) (EncodeToString (storage.MD5 a)) = false ->
  s3Size key = storage.Size a ->
  branch (dryRun flags) key (attrs_ok a) = Val SizeMatches /\
  decision SizeMatches = Skip_SizeMatch /\
  sync_object env flags key st
  = (mkState (world st) (amtTransferred st)
       (output st ++ [EAttrs BeforeTransfer (s3.Key key);
                      EPrintln ["Size matches, skipping"; s3.Key key]])
       (decided st ++ [(key, SizeMatches)]),
     Ret tt).
Proof.
  intros Hst Hh Hsz.
  pose proof (branch_attrs_ok (dryRun flags) key a) as Hb.
  rewrite Hh in Hb. apply Z.eqb_eq in Hsz. rewrite Hsz in Hb.
  repeat split; auto.
  rewrite (sync_object_arm env flags key st SizeMatches) by now rewrite Hst.
  unfold Println, emit, after_stat, mkState; simpl.
  now rewrite <- app_assoc.
Qed.

Lemma size_match_is_skipped_witness :
  branch (dryRun flags_run) obj_a (attrs_ok attrs_a_other_md5) = Val SizeMatches /\
  decision SizeMatches = Skip_SizeMatch /\
  sync_object env_ok flags_run obj_a (init world_a_other)
  = (mkState (world (init world_a_other)) (amtTransferred (init world_a_other))
       (output (init world_a_other)
          ++ [EAttrs BeforeTransfer (s3.Key obj_a);
              EPrintln ["Size matches, skipping"; s3.Key obj_a]])
       (decided (init world_a_other) ++ [(obj_a, SizeMatches)]),
     Ret tt).
Proof.
  apply (size_match_is_skipped env_ok flags_run obj_a (init world_a_other)
           attrs_a_other_md5); reflexivity.
Defined.

(** C6.  When the stat of the destination fails, the arm taken is the
    transfer (the dry-run notice when [dryRun] is set).  The failed stat
    itself ends nothing: the iteration goes on, from a state with no fatal
    message, into the dry-run notice or the copy of the object. *)
Theorem missing_object_is_transferred env flags key st :
  lookup_attrs env BeforeTransfer (world st) (s3.Key key) = attrs_failed ->
  let arm := if dryRun flags then WouldTransfer else DoTransfer in
  branch (dryRun flags) key attrs_failed = Val arm /\
  decision arm = (if dryRun flags then Transfer_DryRun else Transfer) /\
  sync_object env flags key st
  = (if dryRun flags
     then Println ["Would download/upload"; s3.Key key]
     else transfer env key (staged_path env flags key))
      (mkState (world st) (uint64 (amtTransferred st + uint64 (s3Size key)))
         (output st ++ [EAttrs BeforeTransfer (s3.Key key)])
         (decided st ++ [(key, arm)])).
Proof.
  intros Hst arm.
  assert (Hb : branch (dryRun flags) key attrs_failed = Val arm)
    by apply branch_attrs_failed.
  repeat split; auto.
  - subst arm. now destruct (dryRun flags).
  - rewrite (sync_object_arm env flags key st arm) by now rewrite Hst.
    subst arm. destruct (dryRun flags); reflexivity.
Qed.

Lemma missing_object_is_transferred_witness :
  branch (dryRun flags_run) obj_b attrs_failed = Val DoTransfer /\
  decision DoTransfer = Transfer /\
  sync_object env_ok flags_run obj_b (init world_a)
  = transfer env_ok obj_b (staged_path env_ok flags_run obj_b)
      (mkState world_a (uint64 (0 + uint64 (s3Size obj_b)))
         ([] ++ [EAttrs BeforeTransfer (s3.Key obj_b)])
         ([] ++ [(obj_b, DoTransfer)])).
Proof.
  apply (missing_object_is_transferred env_ok flags_run obj_b (init world_a)).
  reflexivity.
Defined.

(** C10.  With a failed stat the arm is computed without reading through
    [gsAttrs]: the result is the same for every value of the pointer, nil
    included, where any field read would panic.  For each result [Attrs] can
    return the comparison yields an arm and never a nil dereference. *)
Theorem comparison_guards_nil_attrs dry key :
  (forall p, branch dry key {| gsAttrs := p; gsErr := true |}
             = Val (if dry then WouldTransfer else DoTransfer)) /\
  (forall env ph w k, exists b, branch dry key (lookup_attrs env ph w k) = Val b).
Proof.
  split.
  - intros p. apply branch_attrs_failed.
  - intros env ph w k. apply branch_of_lookup.
Qed.

(** C8.  In a dry run an object that would be transferred costs one stat and
    one printed line: the bucket and the local disk are as before and no
    event changes either, and the byte count grows by [uint64] of the
    object's size, the same value the count has after the iteration of a real
    run on that object. *)
Theorem dry_run_only_counts env flags key st :
  branch (dryRun flags) key (lookup_attrs env BeforeTransfer (world st) (s3.Key key))
    = Val WouldTransfer ->
  sync_object env flags key st
  = (mkState (world st) (uint64 (amtTransferred st + uint64 (s3Size key)))
       (output st ++ [EAttrs BeforeTransfer (s3.Key key);
                      EPrintln ["Would download/upload"; s3.Key key]])
       (decided st ++ [(key, WouldTransfer)]),
     Ret tt) /\
  existsb mutates [EAttrs BeforeTransfer (s3.Key key);
                   EPrintln ["Would download/upload"; s3.Key key]] = false /\
  let real := {| localDir := localDir flags; dryRun := false |} in
  branch (dryRun real) key (lookup_attrs env BeforeTransfer (world st) (s3.Key key))
    = Val DoTransfer /\
  amtTransferred (fst (sync_object env real key st))
  = uint64 (amtTransferred st + uint64 (s3Size key)).
Proof.
  intros Hb. split; [|split; [reflexivity|]].
  - rewrite (sync_object_arm env flags key st WouldTransfer Hb).
    unfold_prog; unfold after_stat; simpl. now rewrite <- app_assoc.
  - intros real.
    assert (Hr : branch (dryRun real) key
                   (lookup_attrs env BeforeTransfer (world st) (s3.Key key))
                 = Val DoTransfer).
    { destruct (lookup_attrs_shape env BeforeTransfer (world st) (s3.Key key))
        as [E | (a & _ & E)]; rewrite E in *.
      - apply branch_attrs_failed.
      - rewrite branch_attrs_ok in *. simpl.
        destruct (EqualFold _ _); destruct (s3Size key =? storage.Size a);
          try discriminate; reflexivity. }
    split; [exact Hr|].
    rewrite (sync_object_arm env real key st DoTransfer Hr).
    unfold bind, add_amount.
    destruct (transfer env key _ _) as [st' r] eqn:E.
    apply transfer_keeps in E as [Ha _]. simpl. rewrite Ha. reflexivity.
Qed.

Lemma dry_run_only_counts_witness :
  sync_object env_ok flags_dry obj_b (init world_a)
  = (mkState world_a 20
       [EAttrs BeforeTransfer "dir/b.txt";
        EPrintln ["Would download/upload"; "dir/b.txt"]]
       [(obj_b, WouldTransfer)],
     Ret tt) /\
  amtTransferred (fst (sync_object env_ok flags_run obj_b (init world_a))) = 20.
Proof.
  destruct (dry_run_only_counts env_ok flags_dry obj_b (init world_a))
    as (H1 & _ & _ & H2); [reflexivity|].
  split; [exact H1 | exact H2].
Defined.

(** ** The copy of one object *)

Lemma CopyN_app content n :
  (fst (CopyN content n) ++ snd (CopyN content n))%list = content.
Proof.
  revert n. induction content as [|b rest IH]; intros n; simpl; [reflexivity|].
  destruct (n =? 0)%N; simpl; [reflexivity|].
  specialize (IH (N.pred n)). destruct (CopyN rest (N.pred n)); simpl in *.
  now rewrite IH.
Qed.

(** The error [Download] returns has no reader: two environments that differ
    only in that flag run the copy identically. *)
Lemma download_error_flag_unused env key path st (flag : string -> bool) :
  copy_object (with_download env (fun k => (fst (Download_result env k), flag k)))
    key path st
  = copy_object env key path st.
Proof. reflexivity. Qed.

(** C2, at the failing input.  The download of [dir/b.txt] (20 bytes) stops
    after 5 bytes with an error.  The run does not stop there: the 5 staged
    bytes are uploaded and stored under the key, the local file is removed,
    and only the size check after the upload ends the run. *)
Theorem download_failure_goes_on_to_upload :
  snd (Download_result env_download_fails (s3.Key obj_b)) = true /\
  branch (dryRun flags_run) obj_b
    (lookup_attrs env_download_fails BeforeTransfer world_a (s3.Key obj_b))
    = Val DoTransfer /\
  output (fst (sync_object env_download_fails flags_run obj_b (init world_a)))
  = [EAttrs BeforeTransfer "dir/b.txt";
     EMkdirAll "/stage";
     ECreate "/stage/b.txt";
     EPrintln ["Downloading from S3"; "dir/b.txt"; "to"; "/stage/b.txt"];
     EDownload "dir/b.txt" "/stage/b.txt";
     EPrintln ["Uploading"; "/stage/b.txt"; "to GS at"; "dir/b.txt"];
     EOpen "/stage/b.txt";
     ECopyN "/stage/b.txt";
     EWrite "dir/b.txt";
     EPrintln ["Removing"; "/stage/b.txt"];
     ERemove "/stage/b.txt";
     EAttrs AfterUpload "dir/b.txt";
     ELogFatal "Upload failed"] /\
  storage.Size <$>
    gs (world (fst (sync_object env_download_fails flags_run obj_b (init world_a))))
      !! "dir/b.txt" = Some 5 /\
  snd (sync_object env_download_fails flags_run obj_b (init world_a)) = Exit 1.
Proof. vm_compute. repeat split; reflexivity. Qed.

(** C3 as stated fails: the removal comes before the verification.  Here the
    stat after the upload fails; the phases run are staging, downloading,
    uploading, releasing, verifying, the run ends with status 1, and the
    staged file is no longer on the disk although no verification
    succeeded. *)
Lemma release_precedes_verification :
  let res := sync_object env_verify_fails flags_run obj_b (init world_a) in
  snd res = Exit 1 /\
  last (output (fst res)) = Some (ELogFatal "Upload failed") /\
  stages (output (fst res))
  = [Staging; Downloading; Uploading; Releasing; Verifying] /\
  stages (output (fst res))
  <> [Staging; Downloading; Uploading; Verifying; Releasing] /\
  disk (world (fst res)) !! "/stage/b.txt" = None.
Proof. vm_compute. repeat split; try reflexivity; discriminate. Qed.

(** C3, amended.  When the download reports no error, the copy of an object
    goes through staging, downloading, uploading, releasing and verifying in
    that order, and how far it gets is settled by which step fails.  If
    [MkdirAll] or [Create] fails, the run exits during staging with the files
    on the disk and the bucket as they were.  Otherwise, if opening, reading
    or writing fails, the run exits during the upload and the staged file,
    holding the downloaded bytes, is still on the disk.  Otherwise
    [os.Remove] is called on the staged file, which is then gone unless the
    removal itself fails, and only after that is the destination verified:
    the run continues when the stat answers with the listed size, and exits
    otherwise, the file having been removed all the same. *)
Theorem transfer_pipeline_order env key path st :
  snd (Download_result env (s3.Key key)) = false ->
  let res := transfer env key path st in
  let data := fst (Download_result env (s3.Key key)) in
  exists evs,
    output (fst res) = output st ++ evs /\
    if staging_fails env path then
      snd res = Exit 1 /\ stages evs = [Staging] /\
      disk (world (fst res)) = disk (world st) /\
      gs (world (fst res)) = gs (world st)
    else if upload_fails env key path then
      snd res = Exit 1 /\ stages evs = [Staging; Downloading; Uploading] /\
      disk (world (fst res)) !! path = Some data
    else
      stages evs = pipeline_order /\
      disk (world (fst res)) !! path
      = (if Remove_fails env path then Some data else None) /\
      snd res = (if verification_passes env key then Ret tt else Exit 1).
Proof.
  intros _ res data. subst res data.
  unfold staging_fails, upload_fails, verification_passes.
  unfold_prog. cbn.
  destruct (MkdirAll_fails env _); cbn.
  { eexists. split; [rewrite <- !app_assoc; reflexivity|]. auto. }
  destruct (Create_fails env path); cbn.
  { eexists. split; [rewrite <- !app_assoc; reflexivity|]. auto. }
  destruct (Open_fails env path); cbn.
  { eexists. split; [rewrite <- !app_assoc; reflexivity|].
    repeat split. apply lookup_insert_eq. }
  rewrite lookup_insert_eq; cbn.
  destruct (CopyN_fails env path); cbn.
  { eexists. split; [rewrite <- !app_assoc; reflexivity|].
    repeat split. apply lookup_insert_eq. }
  destruct (Write_fails env _); cbn.
  { destruct (Write_leaves env _ _); cbn;
      (eexists; split; [rewrite <- !app_assoc; reflexivity|]);
      repeat split; apply lookup_insert_eq. }
  rewrite CopyN_app.
  destruct (Remove_fails env path); cbn;
    unfold lookup_attrs; cbn; rewrite lookup_insert_eq;
    destruct (Attrs_fails env AfterUpload _); cbn;
    try (unfold size_equal; cbn; destruct (s3Size key =? _); cbn);
    (eexists; split; [rewrite <- !app_assoc; reflexivity|]);
    repeat split; first [apply lookup_insert_eq | apply lookup_delete_eq].
Qed.

Lemma transfer_pipeline_order_witness :
  exists evs,
    output (fst (transfer env_verify_fails obj_b "/stage/b.txt" (init world_staged)))
    = output (init world_staged) ++ evs /\
    stages evs = [Staging; Downloading; Uploading; Releasing; Verifying] /\
    disk (world (fst (transfer env_verify_fails obj_b "/stage/b.txt"
                        (init world_staged)))) !! "/stage/b.txt" = None /\
    snd (transfer env_verify_fails obj_b "/stage/b.txt" (init world_staged)) = Exit 1.
Proof.
  destruct (transfer_pipeline_order env_verify_fails obj_b "/stage/b.txt"
              (init world_staged)) as [evs [Hout Hcase]].
  - reflexivity.
  - exists evs. split; [exact Hout | exact Hcase].
Defined.

(** ** The loop *)

Lemma sync_all_app env flags pre post st :
  sync_all env flags (pre ++ post) st
  = match sync_all env flags pre st with
    | (st1, Ret _) => sync_all env flags post st1
    | (st1, Exit code) => (st1, Exit code)
    | (st1, Panicked) => (st1, Panicked)
    end.
Proof.
  revert st. induction pre as [|k pre IH]; intros st; simpl; [reflexivity|].
  unfold bind. destruct (sync_object env flags k st) as [st1 [[]| |]]; auto.
Qed.

(** The size check after the upload, by cases on what the stat answers. *)
Lemma verify_upload_result env key st :
  verify_upload env key st
  = let r := lookup_attrs env AfterUpload (world st) (s3.Key key) in
    let st1 := mkState (world st) (amtTransferred st)
                 (output st ++ [EAttrs AfterUpload (s3.Key key)]) (decided st) in
    match gsAttrs r with
    | Some a =>
        if s3Size key =? storage.Size a then (st1, Ret tt)
        else (mkState (world st) (amtTransferred st)
                (output st ++ [EAttrs AfterUpload (s3.Key key);
                               ELogFatal "Upload failed"]) (decided st), Exit 1)
    | None =>
        (mkState (world st) (amtTransferred st)
           (output st ++ [EAttrs AfterUpload (s3.Key key);
                          ELogFatal "Upload failed"]) (decided st), Exit 1)
    end.
Proof.
  unfold_prog. cbn.
  destruct (lookup_attrs_shape env AfterUpload (world st) (s3.Key key))
    as [-> | (a & _ & ->)]; cbn.
  - now rewrite <- app_assoc.
  - unfold size_equal; cbn. destruct (s3Size key =? storage.Size a); cbn;
      [reflexivity | now rewrite <- app_assoc].
Qed.

Lemma counted_then {A} key b st (c : M A) :
  (add_amount (s3Size key) ;; c) (after_stat key b st)
  = c (mkState (world st) (uint64 (amtTransferred st + uint64 (s3Size key)))
         (output st ++ [EAttrs BeforeTransfer (s3.Key key)])
         (decided st ++ [(key, b)])).
Proof. reflexivity. Qed.

(** C4.  Suppose the run has come to an object whose arm is the transfer and
    the copy (staging, download, upload, removal) has completed.  The
    destination is then statted again, and if that stat fails or reports a
    size other than the source size, [log.Fatal] ends the run with status 1:
    the result of the whole loop is the state at that point, whatever objects
    follow in the listing. *)
Theorem failed_verification_aborts env flags pre key rest st0 st1 st2 :
  sync_all env flags pre st0 = (st1, Ret tt) ->
  branch (dryRun flags) key
    (lookup_attrs env BeforeTransfer (world st1) (s3.Key key)) = Val DoTransfer ->
  copy_object env key (staged_path env flags key)
    (mkState (world st1) (uint64 (amtTransferred st1 + uint64 (s3Size key)))
       (output st1 ++ [EAttrs BeforeTransfer (s3.Key key)])
       (decided st1 ++ [(key, DoTransfer)]))
  = (st2, Ret tt) ->
  (gsErr (lookup_attrs env AfterUpload (world st2) (s3.Key key)) = true
   \/ exists a, gsAttrs (lookup_attrs env AfterUpload (world st2) (s3.Key key)) = Some a
                /\ s3Size key <> storage.Size a) ->
  sync_all env flags (pre ++ key :: rest) st0
  = (mkState (world st2) (amtTransferred st2)
       (output st2 ++ [EAttrs AfterUpload (s3.Key key); ELogFatal "Upload failed"])
       (decided st2),
     Exit 1)
  /\ exit_status (snd (sync_all env flags (pre ++ key :: rest) st0)) = 1.
Proof.
  intros Hpre Harm Hcopy Hbad.
  assert (E : sync_all env flags (pre ++ key :: rest) st0
              = (mkState (world st2) (amtTransferred st2)
                   (output st2 ++ [EAttrs AfterUpload (s3.Key key);
                                   ELogFatal "Upload failed"])
                   (decided st2), Exit 1)).
  { rewrite sync_all_app, Hpre. simpl. unfold bind at 1.
    rewrite (sync_object_arm env flags key st1 DoTransfer Harm).
    rewrite counted_then. unfold transfer. unfold bind at 1.
    rewrite Hcopy. rewrite verify_upload_result.
    destruct (lookup_attrs_shape env AfterUpload (world st2) (s3.Key key))
      as [E | (a & _ & E)]; rewrite E in *; cbn in *.
    - reflexivity.
    - destruct Hbad as [Hbad | (a' & [= <-] & Hne)]; [discriminate|].
      apply Z.eqb_neq in Hne. rewrite Hne. reflexivity. }
  split; [exact E | now rewrite E].
Qed.

Lemma failed_verification_aborts_witness :
  exit_status
    (snd (sync_all env_verify_fails flags_run ([obj_a] ++ obj_b :: [obj_a; obj_b])
            (init world_a))) = 1.
Proof.
  apply (failed_verification_aborts env_verify_fails flags_run [obj_a] obj_b
           [obj_a; obj_b] (init world_a)
           (fst (sync_all env_verify_fails flags_run [obj_a] (init world_a)))
           (fst (copy_object env_verify_fails obj_b
                   (staged_path env_verify_fails flags_run obj_b)
                   (mkState world_a 20
                      [EAttrs BeforeTransfer "dir/a.txt";
                       EPrintln ["Already in GS, skipping"; "dir/a.txt"];
                       EAttrs BeforeTransfer "dir/b.txt"]
                      [(obj_a, AlreadyInGS); (obj_b, DoTransfer)])))).
  - vm_compute; reflexivity.
  - vm_compute; reflexivity.
  - vm_compute; reflexivity.
  - left. vm_compute; reflexivity.
Defined.

(** ** The byte count *)

Lemma uint64_add a b : uint64 (uint64 a + uint64 b) = uint64 (a + b).
Proof. unfold uint64. now rewrite <- Zplus_mod. Qed.

Lemma uint64_small a : 0 <= a < uint64_modulus -> uint64 a = a.
Proof. intros H. unfold uint64. now apply Z.mod_small. Qed.

Lemma transfer_total_snoc arms kb :
  transfer_total (arms ++ [kb]) = transfer_total arms + contribution kb.
Proof.
  unfold transfer_total, sum_Z. induction arms as [|x arms IH]; simpl.
  - lia.
  - rewrite IH. lia.
Qed.

Section Counting.
Variable env : Env.
Variable flags : Flags.

(** The count follows the recorded arms modulo 2^64 through one iteration,
    however the iteration ends; a completed iteration records exactly its
    object. *)
Lemma sync_object_counts base key st st' r :
  amtTransferred st = uint64 (base + transfer_total (decided st)) ->
  sync_object env flags key st = (st', r) ->
  amtTransferred st' = uint64 (base + transfer_total (decided st'))
  /\ map fst (decided st') = map fst (decided st) ++ [key].
Proof.
  intros Hinv Hrun.
  destruct (branch_of_lookup (dryRun flags) key env BeforeTransfer (world st)
              (s3.Key key)) as [b Hb].
  rewrite (sync_object_arm env flags key st b Hb) in Hrun.
  assert (Hskip : is_skip b = true ->
            amtTransferred (after_stat key b st)
            = uint64 (base + transfer_total (decided (after_stat key b st)))).
  { intros Hs. simpl. rewrite transfer_total_snoc.
    unfold contribution; simpl. destruct b; try discriminate; simpl;
      now rewrite Z.add_0_r. }
  assert (Hcount :
            uint64 (amtTransferred st + uint64 (s3Size key))
            = uint64 (base + transfer_total (decided st ++ [(key, b)]))
            \/ is_skip b = true).
  { destruct b; auto; left; rewrite transfer_total_snoc, Hinv;
      unfold contribution; simpl; rewrite uint64_add; f_equal; lia. }
  destruct b; simpl in Hrun.
  1-3: unfold Println, emit in Hrun; injection Hrun as <- <-; simpl;
       split; [now apply Hskip | now rewrite map_app].
  - rewrite counted_then in Hrun. unfold Println, emit in Hrun.
    injection Hrun as <- <-; simpl.
    destruct Hcount as [-> | ?]; [|discriminate]. now rewrite map_app.
  - rewrite counted_then in Hrun. apply transfer_keeps in Hrun as [-> ->]. simpl.
    destruct Hcount as [-> | ?]; [|discriminate]. now rewrite map_app.
Qed.

Lemma sync_all_counts base contents st st' r :
  amtTransferred st = uint64 (base + transfer_total (decided st)) ->
  sync_all env flags contents st = (st', r) ->
  amtTransferred st' = uint64 (base + transfer_total (decided st'))
  /\ (r = Ret tt -> map fst (decided st') = map fst (decided st) ++ contents).
Proof.
  revert st. induction contents as [|key rest IH]; intros st Hinv Hrun; simpl in Hrun.
  - injection Hrun as <- <-. split; [assumption | now rewrite app_nil_r].
  - unfold bind in Hrun.
    destruct (sync_object env flags key st) as [st1 r1] eqn:E1.
    destruct (sync_object_counts base key st st1 r1 Hinv E1) as [Hinv1 Hd1].
    destruct r1 as [[]| |].
    + destruct (IH st1 Hinv1 Hrun) as [Hinv' Hd']. split; [assumption|].
      intros Hr. rewrite (Hd' Hr), Hd1, <- app_assoc. reflexivity.
    + injection Hrun as <- <-. split; [assumption | discriminate].
    + injection Hrun as <- <-. split; [assumption | discriminate].
Qed.

End Counting.

(** [main], by cases on where it can end. *)
Lemma main_unfold env flags w :
  main env flags (init w)
  = if NewClient_fails env
    then (mkState w 0 [ELogFatal "storage.NewClient"] [], Exit 1)
    else match ListObjectsV2 env with
         | None => (mkState w 0 [ELogFatal "ListObjectsV2"] [], Exit 1)
         | Some contents =>
             match sync_all env flags contents (init w) with
             | (st1, Ret _) =>
                 (mkState (world st1) (amtTransferred st1)
                    (output st1
                     ++ [EPrintln ["Amount transferred";
                                   ByteSize env (amtTransferred st1)];
                         ELogPrintf "%s took %s" ["S3toGS"; elapsed env]])
                    (decided st1), Ret tt)
             | (st1, Exit code) => (st1, Exit code)
             | (st1, Panicked) => (st1, Panicked)
             end
         end.
Proof.
  unfold main, bind. destruct (NewClient_fails env); [reflexivity|].
  destruct (ListObjectsV2 env) as [contents|]; [|reflexivity].
  unfold ret, set_amount, get_amount, Println, timeTrack, emit.
  change (uint64 0) with 0. simpl. fold (init w).
  destruct (sync_all env flags contents (init w)) as [st1 [[]| |]];
    [|reflexivity..].
  unfold mkState. simpl. now rewrite <- app_assoc.
Qed.

Lemma main_completed env flags w st :
  main env flags (init w) = (st, Ret tt) ->
  exists contents st1,
    ListObjectsV2 env = Some contents /\
    sync_all env flags contents (init w) = (st1, Ret tt) /\
    st = mkState (world st1) (amtTransferred st1)
           (output st1
            ++ [EPrintln ["Amount transferred"; ByteSize env (amtTransferred st1)];
                ELogPrintf "%s took %s" ["S3toGS"; elapsed env]])
           (decided st1).
Proof.
  rewrite main_unfold. destruct (NewClient_fails env); [discriminate|].
  destruct (ListObjectsV2 env) as [contents|]; [|discriminate].
  destruct (sync_all env flags contents (init w)) as [st1 [[]| |]] eqn:E;
    try discriminate.
  intros [= <-]. now exists contents, st1.
Qed.

(** C5 as stated fails: the count is a [uint64] and wraps.  A dry run over
    three missing objects of size 2^63 - 1 completes; each decision is the
    dry-run transfer, the exact sum of the sizes is 3 * (2^63 - 1), and the
    count reported is 2^63 - 3. *)
Lemma accumulator_wraps_around :
  let res := main env_huge flags_dry (init world_empty) in
  snd res = Ret tt /\
  map (fun kb => is_int64 (s3Size (fst kb))) (decided (fst res)) = [true; true; true] /\
  map (fun kb => decision (snd kb)) (decided (fst res))
  = [Transfer_DryRun; Transfer_DryRun; Transfer_DryRun] /\
  transfer_total (decided (fst res)) = 27670116110564327421 /\
  amtTransferred (fst res) = 9223372036854775805 /\
  amtTransferred (fst res) <> transfer_total (decided (fst res)).
Proof. vm_compute. repeat split; try reflexivity; discriminate. Qed.

(** C5, amended.  When [main] reaches its report, every listed object has one
    recorded decision, in listing order, and the count equals the sum of the
    source sizes of the objects decided Transfer or Transfer-DryRun, skipped
    objects adding zero, reduced modulo 2^64; it is that sum itself whenever
    the sum lies in the [uint64] range. *)
Theorem accumulator_is_sum_modulo env flags w st :
  main env flags (init w) = (st, Ret tt) ->
  ListObjectsV2 env = Some (map fst (decided st)) /\
  amtTransferred st = uint64 (transfer_total (decided st)) /\
  (0 <= transfer_total (decided st) < uint64_modulus ->
   amtTransferred st = transfer_total (decided st)).
Proof.
  intros Hmain.
  destruct (main_completed env flags w st Hmain) as (contents & st1 & Hl & Hrun & ->).
  destruct (sync_all_counts env flags 0 contents (init w) st1 (Ret tt)) as [Ha Hd];
    [reflexivity | assumption |].
  simpl in *. split; [|split].
  - now rewrite (Hd eq_refl).
  - exact Ha.
  - intros Hrange. rewrite Ha. now apply uint64_small.
Qed.

Lemma accumulator_is_sum_modulo_witness :
  amtTransferred (fst (main env_ok flags_run (init world_a))) = 20 /\
  transfer_total (decided (fst (main env_ok flags_run (init world_a)))) = 20.
Proof.
  destruct (accumulator_is_sum_modulo env_ok flags_run world_a
              (fst (main env_ok flags_run (init world_a))))
    as (_ & H & _).
  - vm_compute; reflexivity.
  - split; [rewrite H|]; vm_compute; reflexivity.
Defined.

(** ** Running twice *)

(** The copy writes the bucket at the object's own key only. *)
Lemma copy_object_frame env key path st st' r k :
  copy_object env key path st = (st', r) ->
  k <> s3.Key key ->
  gs (world st') !! k = gs (world st) !! k.
Proof.
  unfold_prog. cbn. intros Hrun Hk. revert Hrun.
  case_steps; intros [= <- <-]; cbn; auto; now apply lookup_insert_ne.
Qed.

Lemma transfer_frame env key path st st' r k :
  transfer env key path st = (st', r) ->
  k <> s3.Key key ->
  gs (world st') !! k = gs (world st) !! k.
Proof.
  unfold transfer, bind. intros Hrun Hk.
  destruct (copy_object env key path st) as [st1 r1] eqn:E1.
  pose proof (copy_object_frame _ _ _ _ _ _ k E1 Hk) as Hf.
  destruct r1; [|injection Hrun as <- <-; assumption..].
  destruct (verify_upload env key st1) as [st2 r2] eqn:E2.
  apply verify_upload_keeps in E2 as (_ & _ & Hw).
  injection Hrun as <- <-. now rewrite Hw.
Qed.

(** A transfer that returns has left an object of the source size. *)
Lemma transfer_syncs env key path st st' :
  transfer env key path st = (st', Ret tt) -> in_sync key (world st').
Proof.
  unfold transfer, bind.
  destruct (copy_object env key path st) as [st1 [[]| |]]; try discriminate.
  rewrite verify_upload_result.
  destruct (lookup_attrs_shape env AfterUpload (world st1) (s3.Key key))
    as [E | (a & Ha & E)]; rewrite E; cbn; [discriminate|].
  destruct (s3Size key =? storage.Size a) eqn:Hsz; [|discriminate].
  intros [= <-]. cbn. exists a. split; [assumption|]. right. now apply Z.eqb_eq.
Qed.

Section TwoRuns.
Variable env : Env.
Variable flags : Flags.

Lemma sync_object_frame key st st' r k :
  sync_object env flags key st = (st', r) ->
  k <> s3.Key key ->
  gs (world st') !! k = gs (world st) !! k.
Proof.
  intros Hrun Hk.
  destruct (branch_of_lookup (dryRun flags) key env BeforeTransfer (world st)
              (s3.Key key)) as [b Hb].
  rewrite (sync_object_arm env flags key st b Hb) in Hrun.
  destruct b.
  1-3: unfold Println, emit in Hrun; now injection Hrun as <- <-.
  - rewrite counted_then in Hrun. unfold Println, emit in Hrun.
    now injection Hrun as <- <-.
  - rewrite counted_then in Hrun.
    now apply (transfer_frame _ _ _ _ _ _ k) in Hrun.
Qed.

Lemma sync_all_frame contents st st' r k :
  sync_all env flags contents st = (st', r) ->
  ~ In k (map s3.Key contents) ->
  gs (world st') !! k = gs (world st) !! k.
Proof.
  revert st. induction contents as [|key rest IH]; intros st Hrun Hk; simpl in *.
  - now injection Hrun as <- <-.
  - unfold bind in Hrun.
    destruct (sync_object env flags key st) as [st1 r1] eqn:E1.
    assert (Hf : gs (world st1) !! k = gs (world st) !! k).
    { apply (sync_object_frame key st st1 r1 k E1). intros ->. apply Hk. now left. }
    destruct r1 as [[]| |]; [|injection Hrun as <- <-; assumption..].
    rewrite <- Hf. apply IH; [assumption|]. intros Hin. apply Hk. now right.
Qed.

(** A completed iteration of a real run leaves its object in sync. *)
Lemma sync_object_syncs key st st' :
  dryRun flags = false ->
  sync_object env flags key st = (st', Ret tt) ->
  in_sync key (world st').
Proof.
  intros Hdry Hrun.
  destruct (lookup_attrs_shape env BeforeTransfer (world st) (s3.Key key))
    as [E | (a & Ha & E)].
  - rewrite (sync_object_arm env flags key st DoTransfer) in Hrun
      by (rewrite E, Hdry; apply branch_attrs_failed).
    rewrite counted_then in Hrun. now apply transfer_syncs in Hrun.
  - pose proof (branch_attrs_ok (dryRun flags) key a) as Hb. rewrite <- E in Hb.
    rewrite (sync_object_arm env flags key st _ Hb) in Hrun.
    destruct (EqualFold _ _) eqn:Hh; destruct (s3Size key =? storage.Size a) eqn:Hsz;
      try rewrite Hdry in Hrun.
    1-3: unfold Println, emit in Hrun; injection Hrun as <-; cbn;
         exists a; split; [assumption|];
         first [left; assumption | right; now apply Z.eqb_eq].
    rewrite counted_then in Hrun. now apply transfer_syncs in Hrun.
Qed.

Lemma in_sync_frame key w w' :
  gs w' !! s3.Key key = gs w !! s3.Key key -> in_sync key w -> in_sync key w'.
Proof. intros E (a & Ha & H). exists a. split; [now rewrite E | assumption]. Qed.

Lemma sync_all_syncs contents st st' :
  dryRun flags = false ->
  List.NoDup (map s3.Key contents) ->
  sync_all env flags contents st = (st', Ret tt) ->
  Forall (fun key => in_sync key (world st')) contents.
Proof.
  intros Hdry. revert st.
  induction contents as [|key rest IH]; intros st Hnd Hrun; simpl in *.
  - constructor.
  - unfold bind in Hrun.
    destruct (sync_object env flags key st) as [st1 [[]| |]] eqn:E1; try discriminate.
    inversion Hnd as [|? ? Hnotin Hnd']; subst.
    constructor.
    + apply (in_sync_frame key (world st1)).
      * now apply (sync_all_frame rest st1 st' (Ret tt)).
      * now apply (sync_object_syncs key st st1).
    + now apply (IH st1).
Qed.

(** An object in sync whose stat does not fail is skipped. *)
Lemma sync_object_in_sync key st :
  in_sync key (world st) ->
  Attrs_fails env BeforeTransfer (s3.Key key) = false ->
  exists b msg,
    is_skip b = true /\
    sync_object env flags key st
    = (mkState (world st) (amtTransferred st)
         (output st ++ [EAttrs BeforeTransfer (s3.Key key);
                        EPrintln [msg; s3.Key key]])
         (decided st ++ [(key, b)]),
       Ret tt).
Proof.
  intros (a & Ha & Hok) Hf.
  assert (E : lookup_attrs env BeforeTransfer (world st) (s3.Key key) = attrs_ok a)
    by (unfold lookup_attrs; now rewrite Hf, Ha).
  pose proof (branch_attrs_ok (dryRun flags) key a) as Hb. rewrite <- E in Hb.
  set (b := if EqualFold _ _ then _ else _) in Hb.
  assert (Hs : is_skip b = true).
  { subst b. destruct (EqualFold _ _); destruct (s3Size key =? storage.Size a) eqn:Hsz;
      try reflexivity.
    destruct Hok as [? | Hsize]; [discriminate|].
    apply Z.eqb_eq in Hsize. congruence. }
  destruct (sync_object_skip env flags key st b Hb Hs) as [msg Hrun].
  now exists b, msg.
Qed.

Lemma sync_all_in_sync contents st :
  Forall (fun key => in_sync key (world st)) contents ->
  (forall key, In key contents -> Attrs_fails env BeforeTransfer (s3.Key key) = false) ->
  exists arms evs,
    sync_all env flags contents st
    = (mkState (world st) (amtTransferred st) (output st ++ evs)
         (decided st ++ arms), Ret tt) /\
    map fst arms = contents /\
    forallb (fun kb => is_skip (snd kb)) arms = true /\
    existsb mutates evs = false.
Proof.
  revert st. induction contents as [|key rest IH]; intros st Hall Hf; simpl.
  - exists [], []. rewrite !app_nil_r. destruct st; repeat split.
  - inversion Hall as [|? ? Hkey Hrest]; subst.
    destruct (sync_object_in_sync key st Hkey (Hf key (or_introl eq_refl)))
      as (b & msg & Hs & Hrun).
    unfold bind. rewrite Hrun.
    edestruct (IH (mkState (world st) (amtTransferred st)
                    (output st ++ [EAttrs BeforeTransfer (s3.Key key);
                                   EPrintln [msg; s3.Key key]])
                    (decided st ++ [(key, b)])))
      as (arms & evs & Hrun' & Hm & Hsk & Hmu).
    + exact Hrest.
    + intros k Hin. apply Hf. now right.
    + rewrite Hrun'. cbn.
      exists ((key, b) :: arms),
             (EAttrs BeforeTransfer (s3.Key key) :: EPrintln [msg; s3.Key key] :: evs).
      rewrite <- !app_assoc. cbn. rewrite Hm, Hs, Hsk, Hmu. repeat split.
Qed.

End TwoRuns.

(** C9 as stated fails: a dry run is a run that completes, and it transfers
    nothing.  After a completed dry run over the two-object listing, a second
    run decides Transfer for [dir/b.txt] and writes it to the bucket. *)
Lemma second_run_after_dry_run_transfers :
  let first := main env_ok flags_dry (init world_a) in
  let second := main env_ok flags_run (init (world (fst first))) in
  snd first = Ret tt /\
  exit_status (snd first) = 0 /\
  ListObjectsV2 env_ok = Some (map fst (decided (fst second))) /\
  map (fun kb => decision (snd kb)) (decided (fst second))
  = [Skip_HashMatch; Transfer] /\
  gs (world (fst first)) !! "dir/b.txt" = None /\
  storage.Size <$> gs (world (fst second)) !! "dir/b.txt" = Some 20.
Proof. vm_compute. repeat split; reflexivity. Qed.

(** C9, amended.  Let a first run that is not a dry run reach its report over
    a listing with pairwise distinct keys.  A second run, dry or not, that
    gets the same listing and whose stats of the listed keys do not fail,
    started on the world the first run left, reaches its report with every
    listed object decided a hash-match or size-match skip: no event changes
    the bucket or the disk, the world is the same and the count is zero. *)
Theorem second_run_skips_everything env1 env2 flags1 flags2 contents w0 st1 :
  dryRun flags1 = false ->
  List.NoDup (map s3.Key contents) ->
  ListObjectsV2 env1 = Some contents ->
  ListObjectsV2 env2 = Some contents ->
  NewClient_fails env2 = false ->
  (forall key, In key contents ->
               Attrs_fails env2 BeforeTransfer (s3.Key key) = false) ->
  main env1 flags1 (init w0) = (st1, Ret tt) ->
  exists st2,
    main env2 flags2 (init (world st1)) = (st2, Ret tt) /\
    world st2 = world st1 /\
    map fst (decided st2) = contents /\
    forallb (fun kb => is_skip (snd kb)) (decided st2) = true /\
    existsb mutates (output st2) = false /\
    amtTransferred st2 = 0.
Proof.
  intros Hdry Hnd Hl1 Hl2 Hnc Hstat Hmain.
  destruct (main_completed env1 flags1 w0 st1 Hmain)
    as (contents' & st & Hl & Hrun & ->).
  rewrite Hl1 in Hl. injection Hl as <-.
  pose proof (sync_all_syncs env1 flags1 contents (init w0) st Hdry Hnd Hrun) as Hsync.
  cbn [world mkState].
  destruct (sync_all_in_sync env2 flags2 contents (init (world st)) Hsync Hstat)
    as (arms & evs & Hrun2 & Hm & Hsk & Hmu).
  eexists. split.
  - rewrite main_unfold, Hnc, Hl2, Hrun2. reflexivity.
  - cbn. repeat split; try assumption.
    rewrite existsb_app, Hmu. reflexivity.
Qed.

Lemma second_run_skips_everything_witness :
  exists st2,
    main env_ok flags_run
      (init (world (fst (main env_ok flags_run (init world_a)))))
    = (st2, Ret tt) /\
    world st2 = world (fst (main env_ok flags_run (init world_a))) /\
    map fst (decided st2) = [obj_a; obj_b] /\
    forallb (fun kb => is_skip (snd kb)) (decided st2) = true /\
    existsb mutates (output st2) = false /\
    amtTransferred st2 = 0.
Proof.
  apply (second_run_skips_everything env_ok env_ok flags_run flags_run
           [obj_a; obj_b] world_a (fst (main env_ok flags_run (init world_a)))).
  - reflexivity.
  - repeat constructor; simpl; intuition discriminate.
  - reflexivity.
  - reflexivity.
  - reflexivity.
  - intros key Hin. reflexivity.
  - vm_compute; reflexivity.
Defined.

(** * Further properties *)

(** ** Characters and the hash comparison *)

Lemma all_ascii_complete (a : ascii) : In a all_ascii.
Proof.
  unfold all_ascii. rewrite <- (ascii_nat_embedding a).
  apply List.in_map, List.in_seq. pose proof (nat_ascii_bounded a). lia.
Qed.

Lemma ascii_forall (P : ascii -> bool) :
  forallb P all_ascii = true -> forall a, P a = true.
Proof.
  intros H a. rewrite List.forallb_forall in H. apply H, all_ascii_complete.
Qed.

Lemma lower_hex_is_folded b : is_lower_hex b = true -> fold_ascii b = b.
Proof.
  intros H.
  pose proof (ascii_forall
    (fun c => implb (is_lower_hex c) (Ascii.eqb (fold_ascii c) c)) eq_refl b) as Hb.
  cbv beta in Hb. rewrite H in Hb. simpl in Hb. now apply Ascii.eqb_eq.
Qed.

Lemma lower_hex_not_quote b : is_lower_hex b = true -> Ascii.eqb b quote = false.
Proof.
  intros H.
  pose proof (ascii_forall
    (fun c => implb (is_lower_hex c) (negb (Ascii.eqb c quote))) eq_refl b) as Hb.
  cbv beta in Hb. rewrite H in Hb. simpl in Hb. now apply negb_true_iff.
Qed.

Lemma upper_hex_not_quote b :
  is_lower_hex b = true -> Ascii.eqb (upper_ascii b) quote = false.
Proof.
  intros H.
  pose proof (ascii_forall
    (fun c => implb (is_lower_hex c) (negb (Ascii.eqb (upper_ascii c) quote)))
    eq_refl b) as Hb.
  cbv beta in Hb. rewrite H in Hb. simpl in Hb. now apply negb_true_iff.
Qed.

Lemma fold_upper c : fold_ascii (upper_ascii c) = fold_ascii c.
Proof.
  apply Ascii.eqb_eq.
  exact (ascii_forall
           (fun c => Ascii.eqb (fold_ascii (upper_ascii c)) (fold_ascii c)) eq_refl c).
Qed.

Lemma hexdigit_hi v : is_lower_hex (hexdigit (N.shiftr (Byte.to_N v) 4)) = true.
Proof. destruct v; reflexivity. Qed.

Lemma hexdigit_lo v : is_lower_hex (hexdigit (N.land (Byte.to_N v) 15)) = true.
Proof. destruct v; reflexivity. Qed.

Lemma EncodeToString_lower_hex src :
  string_all is_lower_hex (EncodeToString src) = true.
Proof.
  unfold string_all. induction src as [|v rest IH]; simpl; [reflexivity|].
  now rewrite hexdigit_hi, hexdigit_lo.
Qed.

Lemma EncodeToString_length src :
  String.length (EncodeToString src) = (2 * length src)%nat.
Proof. induction src as [|v rest IH]; simpl; [reflexivity|]. rewrite IH. lia. Qed.

(** A string that folds equal to a lower-case hex string has its length and
    consists of hex digits. *)
Lemma EqualFold_lower_hex s t :
  string_all is_lower_hex t = true ->
  EqualFold s t = true ->
  String.length s = String.length t /\ string_all is_hex_char s = true.
Proof.
  unfold string_all. revert t.
  induction s as [|a s IH]; intros [|b t]; simpl; try discriminate; auto.
  intros Ht Heq. apply andb_true_iff in Ht as [Hb Ht].
  apply andb_true_iff in Heq as [Hab Heq].
  destruct (IH t Ht Heq) as [Hlen Hall].
  split; [now rewrite Hlen|].
  rewrite Hall, andb_true_r. unfold is_hex_char.
  apply Ascii.eqb_eq in Hab. rewrite Hab, (lower_hex_is_folded b Hb). exact Hb.
Qed.

Lemma EqualFold_refl s : EqualFold s s = true.
Proof. induction s as [|a s IH]; simpl; [reflexivity|]. now rewrite Ascii.eqb_refl. Qed.

Lemma EqualFold_ToUpper s : EqualFold (ToUpper s) s = true.
Proof.
  induction s as [|a s IH]; simpl; [reflexivity|].
  now rewrite fold_upper, Ascii.eqb_refl.
Qed.

Lemma remove_char_absent c s :
  string_all (fun a => negb (Ascii.eqb a c)) s = true -> remove_char c s = s.
Proof.
  unfold string_all. induction s as [|a s IH]; simpl; [reflexivity|].
  intros H. apply andb_true_iff in H as [Ha Hs].
  apply negb_true_iff in Ha. rewrite Ha. now rewrite IH.
Qed.

Lemma remove_char_quoted s :
  string_all (fun a => negb (Ascii.eqb a quote)) s = true ->
  remove_char quote (etag_of s) = s.
Proof.
  intros H. unfold etag_of.
  change (remove_char quote (String quote (s +:+ String quote EmptyString)))
    with (remove_char quote (s +:+ String quote EmptyString)).
  revert H. unfold string_all. induction s as [|a s IH]; [reflexivity|].
  intros H. simpl in H. apply andb_true_iff in H as [Ha Hs].
  apply negb_true_iff in Ha.
  change (remove_char quote (String a s +:+ String quote EmptyString))
    with (if Ascii.eqb a quote
          then remove_char quote (s +:+ String quote EmptyString)
          else String a (remove_char quote (s +:+ String quote EmptyString))).
  now rewrite Ha, IH.
Qed.

Lemma string_all_impl (p q : ascii -> bool) s :
  (forall a, p a = true -> q a = true) ->
  string_all p s = true -> string_all q s = true.
Proof.
  intros Hpq. unfold string_all. induction (list_ascii_of_string s) as [|a l IH];
    simpl; [reflexivity|].
  intros H. apply andb_true_iff in H as [Ha Hl]. now rewrite (Hpq a Ha), IH.
Qed.

Lemma ToUpper_hex_no_quote s :
  string_all is_lower_hex s = true ->
  string_all (fun a => negb (Ascii.eqb a quote)) (ToUpper s) = true.
Proof.
  unfold string_all. induction s as [|a s IH]; simpl; [reflexivity|].
  intros H. apply andb_true_iff in H as [Ha Hs].
  now rewrite (upper_hex_not_quote a Ha), IH.
Qed.

(** X1.  The fourth row of the decision table: when the stat succeeds and
    both the hashes (up to case) and the sizes differ, the arm is the
    transfer, or the dry-run notice under [dryRun]; the byte count is raised
    by [uint64] of the size before anything else happens. *)
Theorem differing_object_is_transferred env flags key st a :
  lookup_attrs env BeforeTransfer (world st) (s3.Key key) = attrs_ok a ->
  EqualFold (s3MD5 key) (EncodeToString (storage.MD5 a)) = false ->
  s3Size key <> storage.Size a ->
  let arm := if dryRun flags then WouldTransfer else DoTransfer in
  branch (dryRun flags) key (attrs_ok a) = Val arm /\
  sync_object env flags key st
  = (if dryRun flags
     then Println ["Would download/upload"; s3.Key key]
     else transfer env key (staged_path env flags key))
      (mkState (world st) (uint64 (amtTransferred st + uint64 (s3Size key)))
         (output st ++ [EAttrs BeforeTransfer (s3.Key key)])
         (decided st ++ [(key, arm)])).
Proof.
  intros Hst Hh Hsz arm.
  assert (Hb : branch (dryRun flags) key (attrs_ok a) = Val arm).
  { rewrite branch_attrs_ok, Hh. apply Z.eqb_neq in Hsz. now rewrite Hsz. }
  split; [exact Hb|].
  rewrite (sync_object_arm env flags key st arm) by now rewrite Hst.
  subst arm. destruct (dryRun flags); reflexivity.
Qed.

Lemma differing_object_is_transferred_witness :
  branch (dryRun flags_dry) obj_b (attrs_ok attrs_a) = Val WouldTransfer /\
  sync_object env_ok flags_dry obj_b (init world_b_stale)
  = Println ["Would download/upload"; s3.Key obj_b]
      (mkState world_b_stale (uint64 (0 + uint64 (s3Size obj_b)))
         ([] ++ [EAttrs BeforeTransfer (s3.Key obj_b)])
         ([] ++ [(obj_b, WouldTransfer)])).
Proof.
  apply (differing_object_is_transferred env_ok flags_dry obj_b (init world_b_stale)
           attrs_a).
  - vm_compute; reflexivity.
  - vm_compute; reflexivity.
  - vm_compute; discriminate.
Defined.

(** X2.  A hash-match skip is possible only when the ETag without its quotes
    has exactly two characters per byte of the destination MD5 and consists
    of hex digits.  An ETag of another shape, such as one with a dash and a
    part count, is never skipped on its hash. *)
Theorem hash_match_needs_hex dry key a b :
  branch dry key (attrs_ok a) = Val b ->
  decision b = Skip_HashMatch ->
  String.length (s3MD5 key) = (2 * length (storage.MD5 a))%nat /\
  string_all is_hex_char (s3MD5 key) = true.
Proof.
  rewrite branch_attrs_ok. intros Hb Hd.
  destruct (EqualFold _ _) eqn:Hh.
  - rewrite <- EncodeToString_length.
    apply EqualFold_lower_hex; [apply EncodeToString_lower_hex | assumption].
  - revert Hb. destruct (s3Size key =? storage.Size a); [|destruct dry];
      intros [= <-]; discriminate.
Qed.

Lemma hash_match_needs_hex_witness :
  String.length (s3MD5 obj_a) = (2 * length (storage.MD5 attrs_a))%nat /\
  string_all is_hex_char (s3MD5 obj_a) = true.
Proof.
  apply (hash_match_needs_hex false obj_a attrs_a AlreadyInGS); reflexivity.
Defined.

(** X3.  An ETag that is the hex of the destination MD5 between quotes, in
    lower or in upper case, is a hash match whatever the sizes, the key and
    the content type are. *)
Theorem quoted_hex_etag_is_hash_match dry k (upper : bool) n c md5 m :
  let hex := EncodeToString md5 in
  let key := {| s3.Key := k;
                s3.ETag := etag_of (if upper then ToUpper hex else hex);
                s3.Size := n |} in
  let a := {| storage.ContentType := c; storage.MD5 := md5; storage.Size := m |} in
  exists b, branch dry key (attrs_ok a) = Val b /\ decision b = Skip_HashMatch.
Proof.
  intros hex key a.
  assert (Hh : EqualFold (s3MD5 key) (EncodeToString (storage.MD5 a)) = true).
  { change (s3MD5 key)
      with (remove_char quote (etag_of (if upper then ToUpper hex else hex))).
    change (storage.MD5 a) with md5. fold hex. destruct upper.
    - rewrite remove_char_quoted
        by apply ToUpper_hex_no_quote, EncodeToString_lower_hex.
      apply EqualFold_ToUpper.
    - rewrite remove_char_quoted.
      + apply EqualFold_refl.
      + apply (string_all_impl is_lower_hex); [|apply EncodeToString_lower_hex].
        intros x Hx. now rewrite (lower_hex_not_quote x Hx). }
  rewrite branch_attrs_ok, Hh.
  destruct (s3Size key =? storage.Size a); eexists; split; reflexivity.
Qed.

(** ** [writeToGS] *)

Lemma CopyN_firstn content n :
  fst (CopyN content n) = firstn (N.to_nat n) content.
Proof.
  revert n. induction content as [|b rest IH]; intros n; simpl.
  - now destruct (N.to_nat n).
  - destruct (n =? 0)%N eqn:E.
    + apply N.eqb_eq in E. now subst.
    + apply N.eqb_neq in E. specialize (IH (N.pred n)).
      destruct (CopyN rest (N.pred n)) as [buf tl]; simpl in *.
      replace (N.to_nat n) with (S (N.to_nat (N.pred n))) by lia.
      simpl. now rewrite IH.
Qed.

(** X4.  When the staged file can be opened and read and the write goes
    through, [writeToGS] stores the whole file under the key: the 1 MiB
    buffer and the rest of the reader are written back to back, so the stored
    digest and size are those of the file, of any length, and the content
    type is sniffed from its first 2^20 bytes only.  The disk is not
    touched. *)
Theorem writeToGS_uploads_whole_file env path key st content :
  Open_fails env path = false ->
  disk (world st) !! path = Some content ->
  CopyN_fails env path = false ->
  Write_fails env key = false ->
  writeToGS env path key st
  = (mkState {| gs := <[key := stored_attrs env content]> (gs (world st));
                disk := disk (world st);
                dirs := dirs (world st) |}
       (amtTransferred st)
       (output st ++ [EOpen path; ECopyN path; EWrite key])
       (decided st),
     Ret tt).
Proof.
  intros Ho Hd Hc Hw. unfold_prog. cbn. rewrite Ho, Hd. cbn. rewrite Hc. cbn.
  rewrite Hw. cbn. rewrite CopyN_app, CopyN_firstn, <- !app_assoc. reflexivity.
Qed.

Lemma writeToGS_uploads_whole_file_witness :
  writeToGS env_ok "/stage/b.txt" "dir/b.txt" (init world_staged)
  = (mkState {| gs := <["dir/b.txt" := stored_attrs env_ok bytes20]>
                        (gs (world (init world_staged)));
                disk := disk (world (init world_staged));
                dirs := dirs (world (init world_staged)) |}
       (amtTransferred (init world_staged))
       (output (init world_staged)
          ++ [EOpen "/stage/b.txt"; ECopyN "/stage/b.txt"; EWrite "dir/b.txt"])
       (decided (init world_staged)),
     Ret tt).
Proof.
  apply (writeToGS_uploads_whole_file env_ok "/stage/b.txt" "dir/b.txt"
           (init world_staged) bytes20); vm_compute; reflexivity.
Defined.

(** X5.  When the file cannot be opened (or is not there), cannot be read, or
    the write fails, [writeToGS] never returns: the process exits with status
    1 right after a fatal message, and the local files and directories are
    as they were.  The bucket is as it was when the failure is in opening or
    reading; after a failed write it differs at most under the key, where the
    closed writer may have left an object made of part of the bytes. *)
Theorem writeToGS_failure_effects env path key st :
  (if Open_fails env path then None else disk (world st) !! path) = None
  \/ CopyN_fails env path = true
  \/ Write_fails env key = true ->
  let res := writeToGS env path key st in
  snd res = Exit 1 /\
  (exists msg, last (output (fst res)) = Some (ELogFatal msg)) /\
  disk (world (fst res)) = disk (world st) /\
  dirs (world (fst res)) = dirs (world st) /\
  gs (world (fst res))
  = match (if Open_fails env path then None else disk (world st) !! path) with
    | None => gs (world st)
    | Some content =>
        if CopyN_fails env path then gs (world st)
        else match Write_leaves env key content with
             | Some part =>
                 <[key := written_attrs env
                            (DetectContentType env
                               (firstn (N.to_nat maxSlurp) content)) part]>
                   (gs (world st))
             | None => gs (world st)
             end
    end.
Proof.
  intros H res. subst res. unfold_prog. cbn.
  destruct (if Open_fails env path then None else disk (world st) !! path)
    as [content|]; cbn.
  - destruct H as [H | H]; [discriminate|].
    destruct (CopyN_fails env path); cbn.
    + repeat split. eexists. now rewrite last_snoc.
    + destruct H as [H | H]; [discriminate|]. rewrite H. cbn.
      rewrite CopyN_app, CopyN_firstn.
      destruct (Write_leaves env key content); cbn;
        repeat split; eexists; now rewrite last_snoc.
  - repeat split. eexists. now rewrite last_snoc.
Qed.

Lemma writeToGS_failure_effects_witness :
  snd (writeToGS env_write_fails "/stage/b.txt" "dir/b.txt" (init world_staged))
  = Exit 1 /\
  disk (world (fst (writeToGS env_write_fails "/stage/b.txt" "dir/b.txt"
                      (init world_staged))))
  = disk (world (init world_staged)) /\
  storage.Size <$>
    gs (world (fst (writeToGS env_write_fails "/stage/b.txt" "dir/b.txt"
                      (init world_staged)))) !! "dir/b.txt"
  = Some 5.
Proof.
  destruct (writeToGS_failure_effects env_write_fails "/stage/b.txt" "dir/b.txt"
              (init world_staged)) as (H1 & _ & H2 & _ & H3).
  - right; right. reflexivity.
  - split; [exact H1|]. split; [exact H2|]. rewrite H3. vm_compute. reflexivity.
Defined.

(** ** The transfer arm *)

Lemma copy_object_faultless env key path st :
  copy_faultless env key path = true ->
  copy_object env key path st
  = (mkState
       {| gs := <[s3.Key key := stored_attrs env (fst (Download_result env (s3.Key key)))]>
                  (gs (world st));
          disk := if Remove_fails env path
                  then <[path := fst (Download_result env (s3.Key key))]>
                         (disk (world st))
                  else delete path (disk (world st));
          dirs := {[ filepath_Dir env path ]}
                  ∪ list_to_set (MkdirAll_made env (filepath_Dir env path))
                  ∪ dirs (world st) |}
       (amtTransferred st)
       (output st
        ++ [EMkdirAll (filepath_Dir env path);
            ECreate path;
            EPrintln ["Downloading from S3"; s3.Key key; "to"; path];
            EDownload (s3.Key key) path;
            EPrintln ["Uploading"; path; "to GS at"; s3.Key key];
            EOpen path; ECopyN path; EWrite (s3.Key key);
            EPrintln ["Removing"; path];
            ERemove path])
       (decided st),
     Ret tt).
Proof.
  unfold copy_faultless. rewrite !andb_true_iff, !negb_true_iff.
  intros ((((Hm & Hc) & Ho) & Hn) & Hw).
  unfold_prog. cbn. rewrite Hm. cbn. rewrite Hc. cbn. rewrite Ho.
  rewrite lookup_insert_eq. cbn. rewrite Hn. cbn. rewrite Hw. cbn.
  rewrite CopyN_app, CopyN_firstn.
  destruct (Remove_fails env path); cbn;
    rewrite ?delete_insert_eq, ?insert_insert_eq, <- !app_assoc; reflexivity.
Qed.

(** A copy in which a step fails exits; the bucket is as before or has a new
    object under the key of the copy, left by a failed write. *)
Lemma copy_object_faulty env key path st :
  copy_faultless env key path = false ->
  snd (copy_object env key path st) = Exit 1 /\
  (gs (world (fst (copy_object env key path st))) = gs (world st)
   \/ exists a, gs (world (fst (copy_object env key path st)))
                = <[s3.Key key := a]> (gs (world st))).
Proof.
  unfold copy_faultless. unfold_prog. cbn.
  destruct (MkdirAll_fails env _); cbn; [auto|].
  destruct (Create_fails env path); cbn; [auto|].
  destruct (Open_fails env path); cbn; [auto|].
  rewrite lookup_insert_eq. cbn.
  destruct (CopyN_fails env path); cbn; [auto|].
  destruct (Write_fails env _); cbn; [|discriminate].
  destruct (Write_leaves env _ _); cbn; eauto.
Qed.

Lemma transfer_faultless env key path st :
  copy_faultless env key path = true ->
  transfer env key path st
  = verify_upload env key (fst (copy_object env key path st))
  /\ gs (world (fst (copy_object env key path st)))
     = <[s3.Key key := stored_attrs env (fst (Download_result env (s3.Key key)))]>
         (gs (world st))
  /\ disk (world (fst (copy_object env key path st)))
     = (if Remove_fails env path
        then <[path := fst (Download_result env (s3.Key key))]> (disk (world st))
        else delete path (disk (world st))).
Proof.
  intros Hc. unfold transfer, bind.
  now rewrite (copy_object_faultless env key path st Hc).
Qed.

Lemma transfer_faulty env key path st :
  copy_faultless env key path = false ->
  snd (transfer env key path st) = Exit 1 /\
  (gs (world (fst (transfer env key path st))) = gs (world st)
   \/ exists a, gs (world (fst (transfer env key path st)))
                = <[s3.Key key := a]> (gs (world st))).
Proof.
  intros Hc. unfold transfer, bind.
  destruct (copy_object_faulty env key path st Hc) as [He Hg].
  destruct (copy_object env key path st) as [st1 r1]; simpl in *. now subst.
Qed.

(** X6.  Whether the copy of an object completes is settled by the
    environment and the listing, not by what the bucket or the disk held
    before: it completes exactly when no step of the copy fails, the stat
    after the upload answers, and the number of bytes downloaded equals the
    listed size (the bucket reporting the size of what was written to it).
    In every other case the process exits with status 1, so a download that
    delivers too few or too many bytes never passes. *)
Theorem transfer_outcome env key path st :
  snd (transfer env key path st)
  = if transfer_succeeds env key path then Ret tt else Exit 1.
Proof.
  unfold transfer_succeeds.
  destruct (copy_faultless env key path) eqn:Hc.
  - destruct (transfer_faultless env key path st Hc) as (-> & Hg & _).
    rewrite verify_upload_result. unfold lookup_attrs. rewrite Hg. cbn.
    rewrite lookup_insert_eq.
    destruct (Attrs_fails env AfterUpload _); cbn; [reflexivity|].
    now destruct (s3Size key =? _).
  - now destruct (transfer_faulty env key path st Hc) as [-> _].
Qed.

(** X7.  Nothing is rolled back.  Once the upload has gone through, whatever
    the verification then finds, the bucket holds the downloaded bytes under
    the key (possibly a truncated object, next to a fatal exit), and the
    staging path, also when a file was there before the run, is gone from
    the disk or, when [os.Remove] fails, holds the downloaded bytes.  When a
    step of the copy fails the run exits, and the bucket is as it was under
    every other key. *)
Theorem transfer_world env key path st :
  let res := transfer env key path st in
  let data := fst (Download_result env (s3.Key key)) in
  if copy_faultless env key path
  then gs (world (fst res)) = <[s3.Key key := stored_attrs env data]> (gs (world st))
       /\ disk (world (fst res))
          = (if Remove_fails env path
             then <[path := data]> (disk (world st))
             else delete path (disk (world st)))
  else snd res = Exit 1
       /\ delete (s3.Key key) (gs (world (fst res)))
          = delete (s3.Key key) (gs (world st)).
Proof.
  intros res data. subst res data.
  destruct (copy_faultless env key path) eqn:Hc.
  - destruct (transfer_faultless env key path st Hc) as (-> & Hg & Hd).
    destruct (verify_upload env key _) as [st2 r2] eqn:E.
    apply verify_upload_keeps in E as (_ & _ & Hv). simpl. now rewrite Hv.
  - destruct (transfer_faulty env key path st Hc) as [He [-> | [a ->]]];
      (split; [assumption|]); [reflexivity | apply delete_insert_eq].
Qed.

(** ** Whole runs *)

Lemma branch_DoTransfer_real dry key r :
  branch dry key r = Val DoTransfer -> dry = false.
Proof.
  destruct r as [[a|] [|]]; unfold branch, hash_equal, size_equal; cbn;
    repeat match goal with
           | |- context [if ?c then _ else _] => destruct c; cbn
           end;
    try discriminate; reflexivity.
Qed.

Lemma branch_dry_run key r b :
  branch true key r = Val b -> is_DoTransfer b = false.
Proof.
  intros H. destruct b; try reflexivity.
  apply branch_DoTransfer_real in H. discriminate.
Qed.

Section Runs.
Variable env : Env.
Variable flags : Flags.

(** Every iteration records its object with the arm the comparison gives. *)
Lemma sync_object_records key st st' r :
  sync_object env flags key st = (st', r) ->
  exists b,
    branch (dryRun flags) key
      (lookup_attrs env BeforeTransfer (world st) (s3.Key key)) = Val b /\
    decided st' = decided st ++ [(key, b)].
Proof.
  intros Hrun.
  destruct (branch_of_lookup (dryRun flags) key env BeforeTransfer (world st)
              (s3.Key key)) as [b Hb].
  exists b. split; [assumption|].
  rewrite (sync_object_arm env flags key st b Hb) in Hrun.
  destruct b.
  1-3: unfold Println, emit in Hrun; now injection Hrun as <- <-.
  - rewrite counted_then in Hrun. unfold Println, emit in Hrun.
    now injection Hrun as <- <-.
  - rewrite counted_then in Hrun. now apply transfer_keeps in Hrun as [_ ->].
Qed.

(** An iteration that does not take the transfer arm prints and returns. *)
Lemma sync_object_quiet key st b :
  branch (dryRun flags) key
    (lookup_attrs env BeforeTransfer (world st) (s3.Key key)) = Val b ->
  is_DoTransfer b = false ->
  exists amt msg,
    sync_object env flags key st
    = (mkState (world st) amt
         (output st ++ [EAttrs BeforeTransfer (s3.Key key);
                        EPrintln [msg; s3.Key key]])
         (decided st ++ [(key, b)]),
       Ret tt).
Proof.
  intros Hb Hq. rewrite (sync_object_arm env flags key st b Hb).
  destruct b; try discriminate; try rewrite counted_then;
    unfold Println, emit, after_stat, mkState; cbn;
    do 2 eexists; rewrite <- app_assoc; reflexivity.
Qed.

Lemma sync_all_dry contents st :
  dryRun flags = true ->
  exists amt evs arms,
    sync_all env flags contents st
    = (mkState (world st) amt (output st ++ evs) (decided st ++ arms), Ret tt) /\
    existsb mutates evs = false /\
    map fst arms = contents.
Proof.
  intros Hdry. revert st.
  induction contents as [|key rest IH]; intros st; simpl.
  - exists (amtTransferred st), [], []. rewrite !app_nil_r. now destruct st.
  - destruct (branch_of_lookup (dryRun flags) key env BeforeTransfer (world st)
                (s3.Key key)) as [b Hb].
    assert (Hq : is_DoTransfer b = false)
      by (rewrite Hdry in Hb; exact (branch_dry_run _ _ _ Hb)).
    destruct (sync_object_quiet key st b Hb Hq) as (amt & msg & Hrun).
    unfold bind. rewrite Hrun.
    destruct (IH (mkState (world st) amt
                    (output st ++ [EAttrs BeforeTransfer (s3.Key key);
                                   EPrintln [msg; s3.Key key]])
                    (decided st ++ [(key, b)])))
      as (amt' & evs & arms & Hrest & Hmu & Hm).
    rewrite Hrest. cbn.
    exists amt', (EAttrs BeforeTransfer (s3.Key key) :: EPrintln [msg; s3.Key key] :: evs),
           ((key, b) :: arms).
    rewrite <- !app_assoc. cbn. now rewrite Hmu, Hm.
Qed.

End Runs.

(** X8.  A dry run is read-only and cannot fail once the client and the
    listing are there: whatever the stats, the file system and the network
    would do, [main] reaches its report with exit status 0, every listed
    object has been decided, no event changes the bucket or the disk, and
    the world is the one it started in. *)
Theorem dry_run_is_read_only env flags w contents :
  dryRun flags = true ->
  NewClient_fails env = false ->
  ListObjectsV2 env = Some contents ->
  snd (main env flags (init w)) = Ret tt /\
  world (fst (main env flags (init w))) = w /\
  existsb mutates (output (fst (main env flags (init w)))) = false /\
  map fst (decided (fst (main env flags (init w)))) = contents.
Proof.
  intros Hdry Hnc Hl.
  destruct (sync_all_dry env flags contents (init w) Hdry)
    as (amt & evs & arms & Hrun & Hmu & Hm).
  rewrite main_unfold, Hnc, Hl, Hrun. cbn.
  rewrite existsb_app, Hmu. auto.
Qed.

Lemma dry_run_is_read_only_witness :
  snd (main env_download_fails flags_dry (init world_a)) = Ret tt /\
  world (fst (main env_download_fails flags_dry (init world_a))) = world_a /\
  existsb mutates (output (fst (main env_download_fails flags_dry (init world_a))))
  = false /\
  map fst (decided (fst (main env_download_fails flags_dry (init world_a))))
  = [obj_a; obj_b].
Proof.
  apply (dry_run_is_read_only env_download_fails flags_dry world_a [obj_a; obj_b]);
    reflexivity.
Defined.

(** The copy of an object returns, or exits with status 1 right after a fatal
    message. *)
Lemma transfer_ends env key path st :
  snd (transfer env key path st) = Ret tt
  \/ (snd (transfer env key path st) = Exit 1 /\
      exists msg, last (output (fst (transfer env key path st)))
                  = Some (ELogFatal msg)).
Proof.
  unfold transfer, bind.
  destruct (copy_faultless env key path) eqn:Hc.
  - rewrite (copy_object_faultless env key path st Hc), verify_upload_result.
    cbv zeta. destruct (gsAttrs _) as [a|]; [destruct (s3Size key =? _)|]; cbn;
      auto; right; (split; [reflexivity|]); eexists;
      rewrite last_app_cons; reflexivity.
  - right. destruct (copy_object_faulty env key path st Hc) as [He _].
    clear Hc. revert He. unfold_prog. cbn.
    case_steps; intros He; try discriminate;
      (split; [reflexivity|]); eexists; rewrite last_snoc; reflexivity.
Qed.
Section Endings.
Variable env : Env.
Variable flags : Flags.

Lemma sync_object_ends key st :
  snd (sync_object env flags key st) = Ret tt
  \/ (snd (sync_object env flags key st) = Exit 1 /\
      dryRun flags = false /\
      last (decided (fst (sync_object env flags key st))) = Some (key, DoTransfer) /\
      exists msg, last (output (fst (sync_object env flags key st)))
                  = Some (ELogFatal msg)).
Proof.
  destruct (branch_of_lookup (dryRun flags) key env BeforeTransfer (world st)
              (s3.Key key)) as [b Hb].
  destruct (is_DoTransfer b) eqn:Hq.
  - destruct b; try discriminate.
    rewrite (sync_object_arm env flags key st DoTransfer Hb), counted_then.
    destruct (transfer_ends env key (staged_path env flags key)
                (mkState (world st)
                   (uint64 (amtTransferred st + uint64 (s3Size key)))
                   (output st ++ [EAttrs BeforeTransfer (s3.Key key)])
                   (decided st ++ [(key, DoTransfer)])))
      as [H | (H & msg & Hl)]; [now left | right].
    repeat split; try assumption.
    + now apply branch_DoTransfer_real in Hb.
    + destruct (transfer env key _ _) as [st' r] eqn:E.
      apply transfer_keeps in E as [_ Hd]. simpl in *.
      rewrite Hd. simpl. apply last_snoc.
    + now exists msg.
  - left. destruct (sync_object_quiet env flags key st b Hb Hq) as (amt & msg & ->).
    reflexivity.
Qed.


End Endings.


(** X10.  Within the loop only the copy of an object can end the run.  If the
    loop exits, the status is 1, the run is not a dry run, the objects
    recorded are those of a prefix of the listing, and the last one recorded
    was on the transfer arm: skips and dry-run notices never fail. *)
Theorem abort_is_in_transfer_arm env flags contents st st' code :
  sync_all env flags contents st = (st', Exit code) ->
  code = 1 /\
  dryRun flags = false /\
  exists pre key post,
    contents = pre ++ key :: post /\
    map fst (decided st') = map fst (decided st) ++ pre ++ [key] /\
    last (decided st') = Some (key, DoTransfer).
Proof.
  revert st. induction contents as [|key rest IH]; intros st; simpl.
  - discriminate.
  - unfold bind. pose proof (sync_object_ends env flags key st) as H.
    destruct (sync_object env flags key st) as [st1 r1] eqn:E1; simpl in H.
    destruct (sync_object_records env flags key st st1 r1 E1) as (b & _ & Hd).
    destruct H as [-> | (-> & Hdry & Hlast & _)].
    + intros Hrun. destruct (IH st1 Hrun) as (Hc & Hdry & pre & k & post & Hl & Hm & Hlast).
      repeat split; try assumption.
      exists (key :: pre), k, post. split; [now rewrite Hl|]. split; [|assumption].
      rewrite Hm, Hd, map_app, <- app_assoc. reflexivity.
    + intros [= <- <-]. repeat split; try assumption.
      exists [], key, rest. split; [reflexivity|]. split; [|assumption].
      now rewrite Hd, map_app.
Qed.

Lemma abort_is_in_transfer_arm_witness :
  1 = 1 /\
  dryRun flags_run = false /\
  exists pre key post,
    [obj_a; obj_b; obj_a] = pre ++ key :: post /\
    map fst (decided (fst (sync_all env_verify_fails flags_run [obj_a; obj_b; obj_a]
                             (init world_a))))
    = map fst (decided (init world_a)) ++ pre ++ [key] /\
    last (decided (fst (sync_all env_verify_fails flags_run [obj_a; obj_b; obj_a]
                          (init world_a))))
    = Some (key, DoTransfer).
Proof.
  apply (abort_is_in_transfer_arm env_verify_fails flags_run [obj_a; obj_b; obj_a]
           (init world_a)
           (fst (sync_all env_verify_fails flags_run [obj_a; obj_b; obj_a]
                   (init world_a))) 1).
  vm_compute; reflexivity.
Defined.

(** ** What a run leaves in the bucket and on the disk *)

Section Remains.
Variable env : Env.
Variable flags : Flags.

Lemma sync_object_bucket key st st' r k a :
  sync_object env flags key st = (st', r) ->
  gs (world st) !! k = Some a ->
  exists a', gs (world st') !! k = Some a' /\
    (a' = a \/ (s3.Key key = k /\ In (key, DoTransfer) (decided st'))).
Proof.
  intros Hrun Ha.
  destruct (String.eqb_spec k (s3.Key key)) as [-> | Hne].
  2: { exists a. split; [|now left].
       now rewrite (sync_object_frame env flags key st st' r k Hrun Hne). }
  destruct (sync_object_records env flags key st st' r Hrun) as (b & Hb & Hd).
  destruct (is_DoTransfer b) eqn:Hq.
  - destruct b; try discriminate.
    rewrite (sync_object_arm env flags key st DoTransfer Hb), counted_then in Hrun.
    set (st0 := mkState _ _ _ _) in Hrun.
    assert (Hin : In (key, DoTransfer) (decided st'))
      by (rewrite Hd; apply in_or_app; right; now left).
    destruct (copy_faultless env key (staged_path env flags key)) eqn:Hc.
    + destruct (transfer_faultless env key _ st0 Hc) as (Ht & Hg & _).
      rewrite Ht in Hrun. apply verify_upload_keeps in Hrun as (_ & _ & Hv).
      rewrite Hv, Hg. simpl. rewrite lookup_insert_eq. eexists. split; [reflexivity|].
      right. split; [reflexivity | assumption].
    + destruct (transfer_faulty env key _ st0 Hc) as [_ [Hg | [a' Hg]]];
        rewrite Hrun in Hg; simpl in Hg; rewrite Hg.
      * exists a. auto.
      * rewrite lookup_insert_eq. exists a'. split; [reflexivity|].
        right. split; [reflexivity | assumption].
  - destruct (sync_object_quiet env flags key st b Hb Hq) as (amt & msg & E).
    rewrite E in Hrun. injection Hrun as <- <-. exists a. auto.
Qed.

Lemma sync_all_decided_grows contents st st' r x :
  sync_all env flags contents st = (st', r) ->
  In x (decided st) -> In x (decided st').
Proof.
  revert st. induction contents as [|key rest IH]; intros st; simpl.
  - now intros [= <- <-].
  - unfold bind. destruct (sync_object env flags key st) as [st1 r1] eqn:E1.
    destruct (sync_object_records env flags key st st1 r1 E1) as (b & _ & Hd).
    intros Hrun Hin.
    assert (Hin1 : In x (decided st1)) by (rewrite Hd; apply in_or_app; now left).
    destruct r1 as [[]| |]; [now apply (IH st1) | injection Hrun as <- <-..];
      assumption.
Qed.

Lemma sync_all_bucket contents st st' r k a :
  sync_all env flags contents st = (st', r) ->
  gs (world st) !! k = Some a ->
  exists a', gs (world st') !! k = Some a' /\
    (a' = a \/ exists key, s3.Key key = k /\ In (key, DoTransfer) (decided st')).
Proof.
  revert st a. induction contents as [|key rest IH]; intros st a; simpl.
  - intros [= <- <-] Ha. exists a. auto.
  - unfold bind. destruct (sync_object env flags key st) as [st1 r1] eqn:E1.
    intros Hrun Ha.
    destruct (sync_object_bucket key st st1 r1 k a E1 Ha) as (a1 & Ha1 & Hor).
    destruct r1 as [[]| |].
    + destruct (IH st1 a1 Hrun Ha1) as (a' & Ha' & Hor').
      exists a'. split; [assumption|].
      destruct Hor' as [-> | ?]; [|now right].
      destruct Hor as [-> | (Hk & Hin)]; [now left|].
      right. exists key. split; [assumption|].
      now apply (sync_all_decided_grows rest st1 st' r).
    + injection Hrun as <- <-. exists a1. split; [assumption|].
      destruct Hor as [-> | (Hk & Hin)]; [now left | right; now exists key].
    + injection Hrun as <- <-. exists a1. split; [assumption|].
      destruct Hor as [-> | (Hk & Hin)]; [now left | right; now exists key].
Qed.

(** A completed iteration leaves the files as they were, except that a copy
    removes its staging path or, when the removal fails, leaves the
    downloaded bytes there.  Directories are only added. *)
Lemma sync_object_disk key st st' :
  sync_object env flags key st = (st', Ret tt) ->
  exists b,
    decided st' = decided st ++ [(key, b)] /\
    dirs (world st) ⊆ dirs (world st') /\
    disk (world st')
    = if is_DoTransfer b
      then (if Remove_fails env (staged_path env flags key)
            then <[staged_path env flags key :=
                     fst (Download_result env (s3.Key key))]> (disk (world st))
            else delete (staged_path env flags key) (disk (world st)))
      else disk (world st).
Proof.
  intros Hrun.
  destruct (sync_object_records env flags key st st' (Ret tt) Hrun) as (b & Hb & Hd).
  exists b. split; [assumption|].
  destruct (is_DoTransfer b) eqn:Hq.
  - destruct b; try discriminate.
    rewrite (sync_object_arm env flags key st DoTransfer Hb), counted_then in Hrun.
    set (st0 := mkState _ _ _ _) in Hrun.
    destruct (copy_faultless env key (staged_path env flags key)) eqn:Hc.
    + unfold transfer, bind in Hrun.
      rewrite (copy_object_faultless env key _ st0 Hc) in Hrun.
      apply verify_upload_keeps in Hrun as (_ & _ & Hv).
      rewrite Hv. simpl. split; [set_solver | reflexivity].
    + destruct (transfer_faulty env key _ st0 Hc) as [He _].
      rewrite Hrun in He. discriminate.
  - destruct (sync_object_quiet env flags key st b Hb Hq) as (amt & msg & E).
    rewrite E in Hrun. injection Hrun as <-. simpl. auto.
Qed.

Lemma sync_all_disk contents st st' :
  sync_all env flags contents st = (st', Ret tt) ->
  exists arms,
    decided st' = decided st ++ arms /\
    dirs (world st) ⊆ dirs (world st') /\
    forall p,
      if existsb (String.eqb p) (transferred_paths env flags arms)
      then Remove_fails env p = false -> disk (world st') !! p = None
      else disk (world st') !! p = disk (world st) !! p.
Proof.
  revert st. induction contents as [|key rest IH]; intros st; simpl.
  - intros [= <-]. exists []. rewrite app_nil_r.
    split; [reflexivity|]. split; [set_solver|]. intros p. reflexivity.
  - unfold bind. destruct (sync_object env flags key st) as [st1 [[]| |]] eqn:E1;
      try discriminate.
    intros Hrun.
    destruct (sync_object_disk key st st1 E1) as (b & Hd & Hdirs & Hdisk).
    destruct (IH st1 Hrun) as (arms & Hd' & Hdirs' & Hp).
    exists ((key, b) :: arms).
    split; [now rewrite Hd', Hd, <- app_assoc|]. split; [set_solver|].
    intros p. specialize (Hp p).
    destruct (is_DoTransfer b) eqn:Hq.
    + destruct b; try discriminate. simpl.
      destruct (String.eqb_spec p (staged_path env flags key)) as [-> | Hne]; simpl.
      * destruct (existsb _ _); [assumption|].
        intros Hrm. rewrite Hp, Hdisk, Hrm. apply lookup_delete_eq.
      * destruct (existsb _ _); [assumption|].
        rewrite Hp, Hdisk. destruct (Remove_fails env _).
        -- now rewrite lookup_insert_ne by congruence.
        -- now rewrite lookup_delete_ne by congruence.
    + replace (transferred_paths env flags ((key, b) :: arms))
        with (transferred_paths env flags arms) by (now destruct b).
      destruct (existsb _ _); [assumption|]. now rewrite Hp, Hdisk.
Qed.

End Remains.

(** X12.  [main] never deletes from the bucket.  An object that is in the
    bucket when the run starts is there when the run ends, however it ends,
    and with the same attributes unless its key was listed and decided
    Transfer. *)
Theorem bucket_objects_survive env flags w k a :
  gs w !! k = Some a ->
  exists a',
    gs (world (fst (main env flags (init w)))) !! k = Some a' /\
    (a' = a \/
     exists key, s3.Key key = k /\
       In (key, DoTransfer) (decided (fst (main env flags (init w))))).
Proof.
  intros Ha. rewrite main_unfold.
  destruct (NewClient_fails env); [exists a; auto|].
  destruct (ListObjectsV2 env) as [contents|]; [|exists a; auto].
  destruct (sync_all env flags contents (init w)) as [st1 r1] eqn:E.
  destruct (sync_all_bucket env flags contents (init w) st1 r1 k a E Ha)
    as (a' & Ha' & Hor).
  destruct r1 as [[]| |]; exists a'; auto.
Qed.

Lemma bucket_objects_survive_witness :
  exists a',
    gs (world (fst (main env_ok flags_run (init world_b_stale)))) !! "dir/b.txt"
    = Some a' /\
    (a' = attrs_a \/
     exists key, s3.Key key = "dir/b.txt" /\
       In (key, DoTransfer) (decided (fst (main env_ok flags_run (init world_b_stale))))).
Proof.
  apply (bucket_objects_survive env_ok flags_run world_b_stale "dir/b.txt" attrs_a).
  vm_compute; reflexivity.
Defined.

(** X13.  After a run that reaches its report, a local path that is not the
    staging path of a copied object holds what it held at the start.  The
    staging path of a copied object is absent, also when a file of that name
    was there before the run, unless [os.Remove] fails on it.  Every
    directory of the start is still there. *)
Theorem completed_run_disk env flags w st p :
  main env flags (init w) = (st, Ret tt) ->
  (if existsb (String.eqb p) (transferred_paths env flags (decided st))
   then Remove_fails env p = false -> disk (world st) !! p = None
   else disk (world st) !! p = disk w !! p)
  /\ dirs w ⊆ dirs (world st).
Proof.
  intros Hmain.
  destruct (main_completed env flags w st Hmain) as (contents & st1 & _ & Hrun & ->).
  destruct (sync_all_disk env flags contents (init w) st1 Hrun)
    as (arms & Hd & Hdirs & Hp).
  simpl in *. rewrite Hd. split; [apply Hp | assumption].
Qed.

Lemma completed_run_disk_witness :
  disk (world (fst (main env_ok flags_run (init world_staged)))) !! "/stage/b.txt"
  = None.
Proof.
  destruct (completed_run_disk env_ok flags_run world_staged
              (fst (main env_ok flags_run (init world_staged))) "/stage/b.txt")
    as [H _].
  - vm_compute; reflexivity.
  - vm_compute in H. vm_compute. exact (H eq_refl).
Defined.

(** ** The earlier versions *)

Ltac unfold_earlier :=
  unfold copy_part_000, copy_part_001, writeToGS, MkdirAll, Create, Download,
    Remove, log_Fatal, Println, bind, emit, set_world, get_world, ret, exit,
    mkState in *.

Section EarlierFacts.
Variable env : Env.
Variable flags : Flags.

(** The copy of [unnamed/part_000]: it returns exactly when no step fails,
    and then the bucket holds the downloaded bytes under the key. *)
Lemma copy_part_000_result key st :
  snd (copy_part_000 env flags key st)
  = (if copy_faultless env key (full_path env flags key) then Ret tt else Exit 1)
  /\ (if copy_faultless env key (full_path env flags key)
      then gs (world (fst (copy_part_000 env flags key st)))
           = <[s3.Key key :=
                 stored_attrs env (fst (Download_result env (s3.Key key)))]>
               (gs (world st))
      else True).
Proof.
  unfold copy_faultless. unfold_earlier. cbn.
  destruct (MkdirAll_fails env _); cbn; [auto|].
  destruct (Create_fails env _); cbn; [auto|].
  destruct (Open_fails env _); cbn; [auto|].
  rewrite lookup_insert_eq. cbn.
  destruct (CopyN_fails env _); cbn; [auto|].
  destruct (Write_fails env _); cbn.
  { destruct (Write_leaves env _ _); cbn; auto. }
  rewrite CopyN_app, CopyN_firstn.
  destruct (Remove_fails env _); cbn; auto.
Qed.

(** The two bodies differ in what they print, not in what they do. *)
Lemma copy_parts_agree key st0 st1 :
  world st0 = world st1 ->
  world (fst (copy_part_000 env flags key st0))
  = world (fst (copy_part_001 env flags key st1))
  /\ snd (copy_part_000 env flags key st0) = snd (copy_part_001 env flags key st1).
Proof.
  intros Hw. unfold_earlier. cbn. rewrite Hw.
  destruct (MkdirAll_fails env _); cbn; [auto|].
  destruct (Create_fails env _); cbn; [auto|].
  destruct (Open_fails env _); cbn; [auto|].
  rewrite !lookup_insert_eq. cbn.
  destruct (CopyN_fails env _); cbn; [auto|].
  destruct (Write_fails env _); cbn.
  { destruct (Write_leaves env _ _); cbn; auto. }
  destruct (Remove_fails env _); cbn; auto.
Qed.

Lemma for_range_parts_agree contents st0 st1 :
  world st0 = world st1 ->
  world (fst (for_range (copy_part_000 env flags) contents st0))
  = world (fst (for_range (copy_part_001 env flags) contents st1))
  /\ snd (for_range (copy_part_000 env flags) contents st0)
     = snd (for_range (copy_part_001 env flags) contents st1).
Proof.
  revert st0 st1. induction contents as [|key rest IH]; intros st0 st1 Hw; simpl.
  - auto.
  - unfold bind. destruct (copy_parts_agree key st0 st1 Hw) as [Hw' Hr].
    destruct (copy_part_000 env flags key st0) as [s0 r0].
    destruct (copy_part_001 env flags key st1) as [s1 r1].
    simpl in *. subst r1. destruct r0 as [[]| |]; simpl; auto.
Qed.

Lemma for_range_000_uploads contents st :
  all_faultless env flags contents = true ->
  snd (for_range (copy_part_000 env flags) contents st) = Ret tt /\
  (forall key, In key contents ->
     gs (world (fst (for_range (copy_part_000 env flags) contents st))) !! s3.Key key
     = Some (stored_attrs env (fst (Download_result env (s3.Key key))))) /\
  (forall k, ~ In k (map s3.Key contents) ->
     gs (world (fst (for_range (copy_part_000 env flags) contents st))) !! k
     = gs (world st) !! k).
Proof.
  unfold all_faultless. revert st.
  induction contents as [|key rest IH]; intros st Hall; simpl.
  - split; [reflexivity|]. split; [intros ? [] | reflexivity].
  - apply andb_true_iff in Hall as [Hkey Hrest].
    unfold bind. destruct (copy_part_000_result key st) as (Hr & Hg).
    rewrite Hkey in Hr, Hg.
    destruct (copy_part_000 env flags key st) as [s0 r0]. simpl in Hr, Hg. subst r0.
    destruct (IH s0 Hrest) as (Hret & Hin & Hout).
    split; [assumption|]. split.
    + intros k [E | Hk]; [subst k | now apply Hin].
      destruct (in_dec String.string_dec (s3.Key key) (map s3.Key rest)) as [Hd | Hd].
      * apply List.in_map_iff in Hd as (k' & Hk' & Hin').
        rewrite <- Hk'. now apply Hin.
      * rewrite (Hout _ Hd), Hg. apply lookup_insert_eq.
    + intros k Hk. rewrite Hout by (intros ?; apply Hk; now right).
      rewrite Hg. apply lookup_insert_ne. intros E. apply Hk. now left.
Qed.

End EarlierFacts.

(** X14.  The two earlier versions are the same program as far as the world
    and the exit status go: for every environment they leave the same bucket
    and the same disk and end with the same status.  They differ in the order
    of the client set-up and the listing and in when the download notice is
    printed. *)
Theorem earlier_versions_agree env flags w :
  world (fst (main_part_000 env flags (init w)))
  = world (fst (main_part_001 env flags (init w)))
  /\ exit_status (snd (main_part_000 env flags (init w)))
     = exit_status (snd (main_part_001 env flags (init w))).
Proof.
  unfold main_part_000, main_part_001, bind, log_Fatal, emit, ret, exit.
  destruct (NewClient_fails env), (ListObjectsV2 env) as [contents|]; simpl; auto.
  destruct (for_range_parts_agree env flags contents (init w) (init w) eq_refl)
    as [Hw Hr].
  now rewrite Hw, Hr.
Qed.

(** X15.  The version of [unnamed/part_000] copies without looking: when no
    step fails, it ends with status 0 and every listed key holds the bytes
    just downloaded for it, whether or not the bucket already held a matching
    object; keys that are not listed are as they were. *)
Theorem part_000_copies_everything env flags w contents :
  NewClient_fails env = false ->
  ListObjectsV2 env = Some contents ->
  all_faultless env flags contents = true ->
  exit_status (snd (main_part_000 env flags (init w))) = 0 /\
  (forall key, In key contents ->
     gs (world (fst (main_part_000 env flags (init w)))) !! s3.Key key
     = Some (stored_attrs env (fst (Download_result env (s3.Key key))))) /\
  (forall k, ~ In k (map s3.Key contents) ->
     gs (world (fst (main_part_000 env flags (init w)))) !! k = gs w !! k).
Proof.
  intros Hnc Hl Hall.
  unfold main_part_000, bind, ret. rewrite Hnc, Hl. simpl.
  destruct (for_range_000_uploads env flags contents (init w) Hall)
    as (Hr & Hin & Hout).
  rewrite Hr. auto.
Qed.

Lemma part_000_copies_everything_witness :
  exit_status (snd (main_part_000 env_ok flags_run (init world_a))) = 0 /\
  gs (world (fst (main_part_000 env_ok flags_run (init world_a)))) !! s3.Key obj_a
  = Some (stored_attrs env_ok (fst (Download_result env_ok (s3.Key obj_a)))).
Proof.
  destruct (part_000_copies_everything env_ok flags_run world_a [obj_a; obj_b])
    as (H0 & Hin & _); try reflexivity.
  split; [exact H0|]. apply Hin. now left.
Defined.

(** X16.  What a completed real run guarantees: if the listed keys are
    pairwise distinct and [main] reaches its report without [dryRun], then
    for every listed object the bucket holds an object under its key whose
    MD5 matches the ETag up to case or whose size is the listed size. *)
Theorem completed_run_is_in_sync env flags w st contents :
  dryRun flags = false ->
  List.NoDup (map s3.Key contents) ->
  ListObjectsV2 env = Some contents ->
  main env flags (init w) = (st, Ret tt) ->
  Forall (fun key => in_sync key (world st)) contents.
Proof.
  intros Hdry Hnd Hl Hmain.
  destruct (main_completed env flags w st Hmain) as (contents' & st1 & Hl' & Hrun & ->).
  rewrite Hl in Hl'. injection Hl' as <-.
  exact (sync_all_syncs env flags contents (init w) st1 Hdry Hnd Hrun).
Qed.

Lemma completed_run_is_in_sync_witness :
  Forall (fun key => in_sync key (world (fst (main env_ok flags_run (init world_a)))))
         [obj_a; obj_b].
Proof.
  apply (completed_run_is_in_sync env_ok flags_run world_a
           (fst (main env_ok flags_run (init world_a))) [obj_a; obj_b]).
  - reflexivity.
  - repeat constructor; simpl; intuition discriminate.
  - reflexivity.
  - vm_compute; reflexivity.
Defined.
